(** * easykube controller runtime: [Controller] in
      [easykube/kubernetes/runtime/controller.py]

    A shallow embedding of the controller class: its constructor, the
    mappers of the primary and the [owns] watches, [_handle_request] and the
    [_dispatch] loop, followed by the properties that the design document
    states about them.

    Conventions of the embedding.
    - API objects are untyped nested Python values ([pyval]); a [dict] is a
      [gmap string pyval].  Subscripting, [.get] and iteration raise what
      Python raises ([KeyError], [TypeError], [AttributeError]).
    - Effects are sequenced in the monad [M]: a computation reads and extends
      the [World] (the history of calls made on the collaborators and the
      counter that numbers [Request] objects) and ends in an [Outcome]:
      a value, a raised exception, or [Pending] for a coroutine that does
      not complete within the modelled horizon.
    - The collaborators that live outside this file (queue, worker pool,
      random source, event loop) are an environment [Env] that answers each
      call as a function of the history so far; every call and its answer is
      recorded in the history.
    - Python's [float] is IEEE 754 binary64: a [spec_float] of the Standard
      Library with its operations at precision 53 and maximal exponent 1024
      (round to nearest, ties to even); an [int] is a [Z], and converting one
      that is too large to a float raises [OverflowError]. *)

From Stdlib Require Import ZArith QArith SpecFloat Lia.
From stdpp Require Import base option list strings gmap.

Local Open Scope string_scope.
Local Open Scope Z_scope.
Local Open Scope list_scope.

(* ===================================================================== *)
(** ** Python values and exceptions *)
(* ===================================================================== *)

(** JSON-like values, as the API client hands them to the mappers. *)
#[warnings="-register-all"]
Inductive pyval : Type :=
| PNone
| PBool (b : bool)
| PInt (z : Z)
| PStr (s : string)
| PList (l : list pyval)
| PDict (d : gmap string pyval).

(** Python truthiness ([bool(v)]). *)
Definition truthy (v : pyval) : bool :=
  match v with
  | PNone => false
  | PBool b => b
  | PInt z => negb (z =? 0)
  | PStr s => negb (String.eqb s "")
  | PList l => match l with [] => false | _ => true end
  | PDict d => negb (bool_decide (size d = 0%nat))
  end.

(** [v == s] for a [str] object [s]. *)
Definition py_eq_str (v : pyval) (s : string) : bool :=
  match v with
  | PStr s' => String.eqb s' s
  | _ => false
  end.

(** An exception object: the names of the classes in the method resolution
    order of its class, and its argument. *)
Record exn : Type := mk_exn { exn_mro : list string; exn_arg : string }.

Definition isinstance (e : exn) (cls : string) : bool :=
  existsb (String.eqb cls) (exn_mro e).

Definition KeyError (k : string) : exn :=
  mk_exn ["KeyError"; "LookupError"; "Exception"; "BaseException"] k.
Definition TypeError (msg : string) : exn :=
  mk_exn ["TypeError"; "Exception"; "BaseException"] msg.
Definition AttributeError (msg : string) : exn :=
  mk_exn ["AttributeError"; "Exception"; "BaseException"] msg.
(** [asyncio.CancelledError] (Python 3.8 and later: not an [Exception]). *)
Definition CancelledError : exn :=
  mk_exn ["CancelledError"; "BaseException"] "".
(** [asyncio.CancelledError] as Python 3.7 has it. *)
Definition CancelledError37 : exn :=
  mk_exn ["CancelledError"; "Error"; "Exception"; "BaseException"] "".
Definition SystemExit (code : string) : exn :=
  mk_exn ["SystemExit"; "BaseException"] code.
Definition RuntimeError (msg : string) : exn :=
  mk_exn ["RuntimeError"; "Exception"; "BaseException"] msg.
Definition OverflowError (msg : string) : exn :=
  mk_exn ["OverflowError"; "ArithmeticError"; "Exception"; "BaseException"] msg.

(* ===================================================================== *)
(** ** Requests, results, workers *)
(* ===================================================================== *)

(** Modelled from the spec: the [Request] class of [runtime/reconcile.py] is
    missing from the sources.  "An immutable value with: key (namespace +
    name; namespace may be empty for cluster-scoped objects), and id (a
    process-local monotonically increasing integer assigned at
    construction)".  The constructor stores its arguments unchecked. *)
Record Request : Type := mk_Request {
  req_name : pyval;
  req_namespace : pyval;
  req_id : nat
}.

(** Modelled from the spec: [Request.key], "namespace + name". *)
Definition req_key (r : Request) : pyval * pyval :=
  (req_namespace r, req_name r).

(** Modelled from the spec: the [Result] class of [runtime/reconcile.py] is
    missing from the sources.  "{ requeue: bool, requeue_after: duration? }";
    durations are whole seconds, like [requeue_max_backoff]. *)
Record Result : Type := mk_Result {
  requeue : bool;
  requeue_after : option Z
}.

(** Modelled from the spec: the constructor [Result(requeue=False,
    requeue_after=None)]; "requeue_after being set implies requeue:true". *)
Definition Result_new (rq : bool) (after : option Z) : Result :=
  mk_Result (rq || bool_decide (is_Some after)) after.

(** Modelled from the spec: what the constructor guarantees of a [Result]. *)
Definition Result_wf (r : Result) : Prop :=
  is_Some (requeue_after r) → requeue r = true.

(** Truthiness of an [Optional[int]]: [None] and [0] are false. *)
Definition truthy_opt_int (o : option Z) : bool :=
  match o with
  | None => false
  | Some z => negb (z =? 0)
  end.

(** Modelled from the spec: a [Worker] of [runtime/worker_pool.py] (missing
    from the sources), identified by its [id]. *)
Record Worker : Type := mk_Worker { worker_id : nat }.

(** Modelled from the spec: [WorkerPool(worker_count)] of
    [runtime/worker_pool.py] (missing from the sources): "a pool of fixed
    capacity N".  The class defines neither [__bool__] nor [__len__] in the
    spec's interface (only [reserve]), so an instance is truthy. *)
Record WorkerPool : Type := mk_WorkerPool { pool_capacity : Z }.

Definition WorkerPool_new (worker_count : Z) : WorkerPool :=
  mk_WorkerPool worker_count.

Definition WorkerPool_truthy (p : WorkerPool) : bool := true.

(** The queue object handed to [_dispatch] and [_handle_request]; its class
    ([runtime/queue.py]) is missing from the sources and only its identity
    matters here: the calls made on it are recorded in the history. *)
Record Queue : Type := mk_Queue { queue_id : nat }.

(** The task that [_dispatch] hands to a worker: [self._handle_request] with
    the arguments [client, queue, worker.id, request, attempt] (the client,
    passed through untouched, is not recorded). *)
Record Task : Type := mk_Task {
  task_queue : Queue;
  task_worker_id : nat;
  task_request : Request;
  task_attempt : Z
}.

(* ===================================================================== *)
(** ** Outcomes, history and the monad of effects *)
(* ===================================================================== *)

Inductive Outcome (A : Type) : Type :=
| Ok (a : A)
| Raise (e : exn)
| Pending.
Arguments Ok {A} a.
Arguments Raise {A} e.
Arguments Pending {A}.

(** The [extra] of the [LoggerAdapter] built by [_request_logger]. *)
Record LoggerAdapter : Type := mk_LoggerAdapter {
  log_api_version : string;
  log_kind : string;
  log_instance : pyval * pyval;
  log_request_id : nat;
  log_worker_id : nat
}.

Inductive LogLevel : Type := INFO | ERROR.

Inductive LogArg : Type := ArgInt (z : Z) | ArgFloat (f : spec_float).

(** One call on a collaborator, with its answer. *)
Inductive Event : Type :=
| EvLog (lg : LoggerAdapter) (level : LogLevel) (msg : string) (args : list LogArg)
| EvUniform (a b : Z) (x : spec_float)
| EvRequeue (q : Queue) (request : Request) (attempt : Z) (delay : spec_float)
| EvProcessingComplete (q : Queue) (request : Request)
| EvHasEligible (q : Queue) (b : bool)
| EvSleep (secs : Q) (o : Outcome unit)
| EvReserve (p : WorkerPool) (o : Outcome Worker)
| EvDequeue (q : Queue) (o : Outcome (Request * Z))
| EvSetTask (w : Worker) (t : Task).

Record World : Type := mk_World {
  history : list Event;
  next_request_id : nat
}.

Definition M (A : Type) : Type := World → Outcome A * World.

Definition ret {A} (a : A) : M A := fun w => (Ok a, w).

Definition raise {A} (e : exn) : M A := fun w => (Raise e, w).

Definition pending {A} : M A := fun w => (Pending, w).

Definition bind {A B} (m : M A) (k : A → M B) : M B :=
  fun w =>
    match m w with
    | (Ok a, w') => k a w'
    | (Raise e, w') => (Raise e, w')
    | (Pending, w') => (Pending, w')
    end.

Declare Scope py_scope.
Delimit Scope py_scope with py.
Notation "x <- m ;; k" := (bind m (fun x => k))
  (at level 100, m at next level, right associativity) : py_scope.
Notation "m ;;; k" := (bind m (fun _ => k))
  (at level 100, right associativity) : py_scope.
Local Open Scope py_scope.

(** Record a call in the history. *)
Definition emit (e : Event) : M unit :=
  fun w => (Ok tt, mk_World (history w ++ [e]) (next_request_id w)).

(** [try: body / except cls_1: h_1 / ... / else: orelse]: the first clause
    whose class the exception is an instance of handles it; with no such
    clause the exception propagates. *)
Definition try_except_else {A B} (body : M A)
    (handlers : list (string * (exn → M B))) (orelse : A → M B) : M B :=
  fun w =>
    match body w with
    | (Ok a, w') => orelse a w'
    | (Raise e, w') =>
        match List.find (fun h => isinstance e (fst h)) handlers with
        | Some h => snd h e w'
        | None => (Raise e, w')
        end
    | (Pending, w') => (Pending, w')
    end.

(** Complete an awaited coroutine whose outcome is known. *)
Definition of_outcome {A} (o : Outcome A) : M A := fun w => (o, w).

(* ===================================================================== *)
(** ** Operations on Python values *)
(* ===================================================================== *)

(** [v[k]] for a [str] key. *)
Definition getitem (v : pyval) (k : string) : M pyval :=
  match v with
  | PDict d =>
      match d !! k with
      | Some x => ret x
      | None => raise (KeyError k)
      end
  | _ => raise (TypeError "object is not subscriptable by str")
  end.

(** [v.get(k, default)]; only a [dict] has the method. *)
Definition dict_get (v : pyval) (k : string) (dflt : pyval) : M pyval :=
  match v with
  | PDict d => ret (default dflt (d !! k))
  | _ => raise (AttributeError "get")
  end.

(** The characters of a [str], each a [str] of length one. *)
Fixpoint str_chars (s : string) : list pyval :=
  match s with
  | EmptyString => []
  | String c s' => PStr (String c EmptyString) :: str_chars s'
  end.

(** The elements that [for x in v] visits.  A [dict] yields its keys (in
    insertion order in Python; the order of [map_to_list] here, which no
    caller below depends on). *)
Definition py_iter (v : pyval) : M (list pyval) :=
  match v with
  | PList l => ret l
  | PDict d => ret (List.map (fun kv => PStr (fst kv)) (map_to_list d))
  | PStr s => ret (str_chars s)
  | _ => raise (TypeError "object is not iterable")
  end.

(** [Request(name, namespace)]: the next id is taken from the counter. *)
Definition Request_new (name namespace : pyval) : M Request :=
  fun w =>
    (Ok (mk_Request name namespace (next_request_id w)),
     mk_World (history w) (S (next_request_id w))).

(* ===================================================================== *)
(** ** The collaborators *)
(* ===================================================================== *)

(** The environment: what the random source, the queue, the event loop and
    the worker pool answer, given the calls made so far.  An awaited call
    may complete, raise (a cancellation is delivered at an [await]) or stay
    pending. *)
Record Env : Type := mk_Env {
  env_uniform : list Event → Z → Z → spec_float;
  env_has_eligible : list Event → bool;
  env_sleep : list Event → Outcome unit;
  env_reserve : list Event → Outcome Worker;
  env_dequeue : list Event → Outcome (Request * Z)
}.

(** A call whose answer the environment gives and the history records. *)
Definition call {A} (answer : list Event → A) (record : A → Event) : M A :=
  fun w =>
    let a := answer (history w) in
    (Ok a, mk_World (history w ++ [record a]) (next_request_id w)).

(** An awaited call: recorded like [call], then completed with its outcome. *)
Definition await {A} (answer : list Event → Outcome A)
    (record : Outcome A → Event) : M A :=
  o <- call answer record ;; of_outcome o.

Definition random_uniform (env : Env) (a b : Z) : M spec_float :=
  call (fun h => env_uniform env h a b) (EvUniform a b).

Definition has_eligible_request (env : Env) (queue : Queue) : M bool :=
  call (env_has_eligible env) (EvHasEligible queue).

(** [await asyncio.sleep(secs)]; the argument is recorded as the decimal
    that the source writes ([0.1]). *)
Definition asyncio_sleep (env : Env) (secs : Q) : M unit :=
  await (env_sleep env) (EvSleep secs).

Definition reserve (env : Env) (pool : WorkerPool) : M Worker :=
  await (env_reserve env) (EvReserve pool).

Definition dequeue (env : Env) (queue : Queue) : M (Request * Z) :=
  await (env_dequeue env) (EvDequeue queue).

Definition queue_requeue (queue : Queue) (request : Request) (attempt : Z)
    (delay : spec_float) : M unit :=
  emit (EvRequeue queue request attempt delay).

Definition processing_complete (queue : Queue) (request : Request) : M unit :=
  emit (EvProcessingComplete queue request).

Definition set_task (worker : Worker) (t : Task) : M unit :=
  emit (EvSetTask worker t).

Definition log_info (lg : LoggerAdapter) (msg : string) (args : list LogArg)
    : M unit :=
  emit (EvLog lg INFO msg args).

(** [logger.exception] logs at level [ERROR]. *)
Definition log_exception (lg : LoggerAdapter) (msg : string) : M unit :=
  emit (EvLog lg ERROR msg []).

(* ===================================================================== *)
(** ** Python numbers *)
(* ===================================================================== *)

(** A number is an [int] or a [float]. *)
Inductive pynum : Type :=
| PyInt (z : Z)
| PyFloat (f : spec_float).

(** [float(n)] for an [int]: the nearest float, ties to even; an [int] that
    rounds beyond the largest float raises [OverflowError]. *)
Definition float_of_int (n : Z) : Outcome spec_float :=
  match binary_normalize 53 1024 n 0 false with
  | S754_infinity _ => Raise (OverflowError "int too large to convert to float")
  | f => Ok f
  end.

(** How a float compares to an [int]: by their exact values, as Python
    does; [None] for a NaN. *)
Definition float_compare_int (f : spec_float) (n : Z) : option comparison :=
  match f with
  | S754_nan => None
  | S754_infinity s => Some (if s then Lt else Gt)
  | S754_zero _ => Some (0 ?= n)
  | S754_finite s m e =>
      let v := if s then Zneg m else Zpos m in
      Some (if 0 <=? e then (v * 2 ^ e ?= n) else (v ?= n * 2 ^ (- e)))
  end.

(** [a < b]. *)
Definition py_lt (a b : pynum) : bool :=
  match a, b with
  | PyInt x, PyInt y => x <? y
  | PyFloat f, PyInt y =>
      match float_compare_int f y with Some Lt => true | _ => false end
  | PyInt x, PyFloat g =>
      match float_compare_int g x with Some Gt => true | _ => false end
  | PyFloat f, PyFloat g => SFltb f g
  end.

(** [min(a, b)]: [b] only when [b < a]. *)
Definition py_min (a b : pynum) : pynum := if py_lt b a then b else a.

(** [2**n]: the [int] [2^n] for [n >= 0]; for a negative [n] both operands
    are converted to floats and the result is the float power (a power of
    two below the smallest float gives zero). *)
Definition py_pow2 (n : Z) : Outcome pynum :=
  if 0 <=? n then Ok (PyInt (2 ^ n))
  else
    match float_of_int n with
    | Ok _ => Ok (PyFloat (binary_normalize 53 1024 1 n false))
    | Raise e => Raise e
    | Pending => Pending
    end.

(** [x + y] for a float [y]: an [int] [x] is converted to a float first. *)
Definition py_add_float (x : pynum) (y : spec_float) : Outcome spec_float :=
  match x with
  | PyInt n =>
      match float_of_int n with
      | Ok f => Ok (SFadd 53 1024 f y)
      | Raise e => Raise e
      | Pending => Pending
      end
  | PyFloat f => Ok (SFadd 53 1024 f y)
  end.

(* ===================================================================== *)
(** ** The controller *)
(* ===================================================================== *)

(** A label selector of the API client, kept as its rendering. *)
Record LabelSelector : Type := mk_LabelSelector { selector_repr : string }.

(** [LabelValue = Union[LabelSelector, List[str], str]]. *)
Inductive LabelValue : Type :=
| LabelSel (sel : LabelSelector)
| LabelList (l : list string)
| LabelStr (s : string).

(** The arguments that the [Watch] constructor receives (the class itself,
    [runtime/watch.py], is missing from the sources). *)
Record Watch : Type := mk_Watch {
  watch_api_version : string;
  watch_kind : string;
  watch_mapper : pyval → M (list Request);
  watch_labels : option (gmap string LabelValue);
  watch_namespace : option string
}.

(** [a or b] on an [Optional[str]]. *)
Definition or_opt_str (a b : option string) : option string :=
  match a with
  | Some s => if String.eqb s "" then b else a
  | None => b
  end.

(** The mapper of the primary watch:
    [lambda obj: [Request(obj["metadata"]["name"],
                          obj["metadata"].get("namespace"))]]. *)
Definition primary_mapper (obj : pyval) : M (list Request) :=
  md <- getitem obj "metadata" ;;
  name <- getitem md "name" ;;
  md' <- getitem obj "metadata" ;;
  namespace <- dict_get md' "namespace" PNone ;;
  r <- Request_new name namespace ;;
  ret [r].

(** The condition of the comprehension in [owns]; [and] and [or] evaluate
    their right operand only when the left one does not decide. *)
Definition owns_condition (self_api_version self_kind : string)
    (controller_only : bool) (ref : pyval) : M bool :=
  a <- getitem ref "apiVersion" ;;
  if negb (py_eq_str a self_api_version) then ret false else
  k <- getitem ref "kind" ;;
  if negb (py_eq_str k self_kind) then ret false else
  if negb controller_only then ret true else
  c <- dict_get ref "controller" (PBool false) ;;
  ret (truthy c).

(** The comprehension of [owns] over the elements of the iterable. *)
Fixpoint owns_comprehension (self_api_version self_kind : string)
    (controller_only : bool) (obj : pyval) (refs : list pyval)
    : M (list Request) :=
  match refs with
  | [] => ret []
  | ref :: refs' =>
      selected <- owns_condition self_api_version self_kind controller_only ref ;;
      if selected then
        name <- getitem ref "name" ;;
        md <- getitem obj "metadata" ;;
        namespace <- dict_get md "namespace" PNone ;;
        r <- Request_new name namespace ;;
        rs <- owns_comprehension self_api_version self_kind controller_only obj refs' ;;
        ret (r :: rs)
      else
        owns_comprehension self_api_version self_kind controller_only obj refs'
  end.

(** The mapper of a watch registered by [owns]. *)
Definition owns_mapper (self_api_version self_kind : string)
    (controller_only : bool) (obj : pyval) : M (list Request) :=
  md <- getitem obj "metadata" ;;
  iterable <- dict_get md "ownerReferences" (PList []) ;;
  refs <- py_iter iterable ;;
  owns_comprehension self_api_version self_kind controller_only obj refs.

Section Controller.

(** The API client is opaque to the controller: it is only passed on to the
    reconcile function. *)
Variable AsyncClient : Type.

Definition ReconcileFunc : Type := AsyncClient → Request → M (option Result).

Record Controller : Type := mk_Controller {
  _api_version : string;
  _kind : string;
  _namespace : option string;
  _worker_pool : WorkerPool;
  _requeue_max_backoff : Z;
  _reconcile_func : ReconcileFunc;
  _watches : list Watch
}.

(** The keyword arguments of the constructor; [None] is an argument that
    was not passed (or, for the optional ones, passed as [None]). *)
Record Kwargs : Type := mk_Kwargs {
  kw_labels : option (gmap string LabelValue);
  kw_namespace : option string;
  kw_worker_count : option Z;
  kw_worker_pool : option WorkerPool;
  kw_requeue_max_backoff : option Z
}.

Definition no_kwargs : Kwargs := mk_Kwargs None None None None None.

(** [worker_pool or WorkerPool(worker_count)]. *)
Definition worker_pool_or (worker_pool : option WorkerPool) (worker_count : Z)
    : WorkerPool :=
  match worker_pool with
  | Some p => if WorkerPool_truthy p then p else WorkerPool_new worker_count
  | None => WorkerPool_new worker_count
  end.

Definition __init__ (api_version kind : string) (reconcile_func : ReconcileFunc)
    (kw : Kwargs) : Controller :=
  let labels := kw_labels kw in
  let namespace := kw_namespace kw in
  let worker_count := default 10 (kw_worker_count kw) in
  let worker_pool := kw_worker_pool kw in
  let requeue_max_backoff := default 120 (kw_requeue_max_backoff kw) in
  {| _api_version := api_version;
     _kind := kind;
     _namespace := namespace;
     _worker_pool := worker_pool_or worker_pool worker_count;
     _requeue_max_backoff := requeue_max_backoff;
     _reconcile_func := reconcile_func;
     _watches := [mk_Watch api_version kind primary_mapper labels namespace] |}.

(** [owns] appends a watch and returns the controller; [controller_only]
    is a keyword argument with default [True] ([None]: not passed). *)
Definition owns (self : Controller) (api_version kind : string)
    (controller_only : option bool) : Controller :=
  let controller_only := default true controller_only in
  {| _api_version := _api_version self;
     _kind := _kind self;
     _namespace := _namespace self;
     _worker_pool := _worker_pool self;
     _requeue_max_backoff := _requeue_max_backoff self;
     _reconcile_func := _reconcile_func self;
     _watches := _watches self ++
       [mk_Watch api_version kind
          (owns_mapper (_api_version self) (_kind self) controller_only)
          None (_namespace self)] |}.

(** [watches] appends a watch with a mapper of the caller. *)
Definition watches (self : Controller) (api_version kind : string)
    (mapper : pyval → M (list Request))
    (labels : option (gmap string LabelValue)) (namespace : option string)
    : Controller :=
  {| _api_version := _api_version self;
     _kind := _kind self;
     _namespace := _namespace self;
     _worker_pool := _worker_pool self;
     _requeue_max_backoff := _requeue_max_backoff self;
     _reconcile_func := _reconcile_func self;
     _watches := _watches self ++
       [mk_Watch api_version kind mapper labels
          (or_opt_str namespace (_namespace self))] |}.

Definition _request_logger (self : Controller) (request : Request)
    (worker_id : nat) : LoggerAdapter :=
  {| log_api_version := _api_version self;
     log_kind := _kind self;
     log_instance := req_key request;
     log_request_id := req_id request;
     log_worker_id := worker_id |}.

Variable env : Env.

(** [_handle_request].  The reconcile function is awaited inside
    [try ... except asyncio.CancelledError ... except Exception ... else];
    [result or Result()] replaces [None] only, an instance of [Result] being
    truthy; [if result.requeue_after] is a truthiness test; the local
    [attempt] is rebound to [-1] when a delay was asked for.  The delay is
    an [int] until the jitter, a float, is added to it; that addition is
    outside the [try], so an [OverflowError] of it leaves the function. *)
Definition _handle_request (self : Controller) (client : AsyncClient)
    (queue : Queue) (worker_id : nat) (request : Request) (attempt : Z)
    : M unit :=
  let logger := _request_logger self request worker_id in
  log_info logger "Handling reconcile request (attempt %d)"
    [ArgInt (attempt + 1)] ;;;
  result <-
    try_except_else
      (_reconcile_func self client request)
      [ ("CancelledError", fun e => raise e);
        ("Exception", fun _ =>
           log_exception logger "Error handling reconcile request" ;;;
           ret (Result_new true None)) ]
      (fun result => ret (default (Result_new false None) result)) ;;
  if requeue result then
    chosen <-
      (if truthy_opt_int (requeue_after result)
       then ret (PyInt (default 0 (requeue_after result)), -1)
       else
         power <- of_outcome (py_pow2 attempt) ;;
         ret (py_min power (PyInt (_requeue_max_backoff self)), attempt)) ;;
    let '(delay, attempt) := chosen in
    jitter <- random_uniform env 0 1 ;;
    delay <- of_outcome (py_add_float delay jitter) ;;
    log_info logger "Requeuing request after %.3fs" [ArgFloat delay] ;;;
    queue_requeue queue request (attempt + 1) delay
  else
    log_info logger "Successfully handled reconcile request" [] ;;;
    processing_complete queue request.

(** [while not queue.has_eligible_request(): await asyncio.sleep(0.1)],
    for at most [fuel] polls. *)
Fixpoint wait_eligible (fuel : nat) (queue : Queue) : M unit :=
  match fuel with
  | O => pending
  | S fuel' =>
      eligible <- has_eligible_request env queue ;;
      if negb eligible then
        asyncio_sleep env (1 # 10) ;;;
        wait_eligible fuel' queue
      else ret tt
  end.

(** The [while True] loop of [_dispatch], for at most [fuel] iterations
    (and at most [fuel] polls in each): wait for an eligible request, reserve
    a worker, dequeue, hand the request to the worker.  The worker runs the
    task on its own; that concurrent run is not part of this loop. *)
Fixpoint _dispatch (fuel : nat) (self : Controller) (client : AsyncClient)
    (queue : Queue) : M unit :=
  match fuel with
  | O => pending
  | S fuel' =>
      wait_eligible (S fuel') queue ;;;
      worker <- reserve env (_worker_pool self) ;;
      dequeued <- dequeue env queue ;;
      let '(request, attempt) := dequeued in
      set_task worker (mk_Task queue (worker_id worker) request attempt) ;;;
      _dispatch fuel' self client queue
  end.

End Controller.

Arguments _api_version {AsyncClient} c.
Arguments _kind {AsyncClient} c.
Arguments _namespace {AsyncClient} c.
Arguments _worker_pool {AsyncClient} c.
Arguments _requeue_max_backoff {AsyncClient} c.
Arguments _reconcile_func {AsyncClient} c.
Arguments _watches {AsyncClient} c.
Arguments __init__ {AsyncClient}.
Arguments owns {AsyncClient}.
Arguments watches {AsyncClient}.
Arguments _request_logger {AsyncClient}.
Arguments _handle_request {AsyncClient}.
Arguments _dispatch {AsyncClient}.

(* ===================================================================== *)
(** ** The REST client ([easykube/rest/client.py]) *)
(* ===================================================================== *)

Module BaseClient.

(** What [send] reads of an [httpx] request and response. *)
Record HttpRequest : Type := mk_HttpRequest {
  http_method : string;
  http_url : string
}.

Record Response : Type := mk_Response {
  response_request : HttpRequest;
  status_code : Z
}.

(** The calls of [send]: the request handed to the transport
    ([super().send(request, **kwargs)], resumed by the flow executor with
    the response or with the exception), the record logged by
    [log_response] (the format is [API request: "%s %s" %s], with method,
    URL and status code), and the status check. *)
Inductive RestEvent : Type :=
| RestSend (request : HttpRequest) (o : Outcome Response)
| RestLogInfo (method url : string) (status : Z)
| RestRaiseForStatus (response : Response) (o : option exn).

Definition R (A : Type) : Type := list RestEvent → Outcome A * list RestEvent.

Definition rret {A} (a : A) : R A := fun h => (Ok a, h).

Definition rbind {A B} (m : R A) (k : A → R B) : R B :=
  fun h =>
    match m h with
    | (Ok a, h') => k a h'
    | (Raise e, h') => (Raise e, h')
    | (Pending, h') => (Pending, h')
    end.

Section Client.

(** The transport of the [httpx] client, and the status check of an [httpx]
    response ([Response.raise_for_status], which raises for some status
    codes): both belong to the library. *)
Variable transport : list RestEvent → HttpRequest → Outcome Response.
Variable status_error : Response → option exn.

Definition super_send (request : HttpRequest) : R Response :=
  fun h =>
    let o := transport h request in
    (o, h ++ [RestSend request o]).

Definition log_response (response : Response) : R unit :=
  fun h =>
    (Ok tt,
     h ++ [RestLogInfo (http_method (response_request response))
             (http_url (response_request response)) (status_code response)]).

Definition raise_for_status (response : Response) : R unit :=
  fun h =>
    let o := status_error response in
    (match o with Some e => Raise e | None => Ok tt end,
     h ++ [RestRaiseForStatus response o]).

Definition send (request : HttpRequest) : R Response :=
  rbind (super_send request) (fun response =>
  rbind (log_response response) (fun _ =>
  rbind (raise_for_status response) (fun _ =>
  rret response))).

End Client.

End BaseClient.

(* ===================================================================== *)
(** ** Vocabulary of the properties *)
(* ===================================================================== *)

(** The world [w] after the calls [es]. *)
Definition extend (w : World) (es : list Event) : World :=
  mk_World (history w ++ es) (next_request_id w).

(** [obj["metadata"]] of an object that has a metadata mapping. *)
Definition metadata_of (obj : pyval) : option (gmap string pyval) :=
  match obj with
  | PDict d =>
      match d !! "metadata" with
      | Some (PDict m) => Some m
      | _ => None
      end
  | _ => None
  end.

(** The owner references of a metadata mapping: the key is optional. *)
Definition owner_references (m : gmap string pyval) : option (list pyval) :=
  match m !! "ownerReferences" with
  | None => Some []
  | Some (PList refs) => Some refs
  | Some _ => None
  end.

(** An owner reference as the API server sends it: a mapping with
    [apiVersion], [kind] and [name], and an optional boolean [controller]. *)
Definition owner_reference_wf (ref : pyval) : bool :=
  match ref with
  | PDict r =>
      bool_decide (is_Some (r !! "apiVersion")) &&
      bool_decide (is_Some (r !! "kind")) &&
      bool_decide (is_Some (r !! "name")) &&
      match r !! "controller" with
      | None | Some (PBool _) => true
      | Some _ => false
      end
  | _ => false
  end.

Definition ref_field (ref : pyval) (k : string) : pyval :=
  match ref with
  | PDict r => default PNone (r !! k)
  | _ => PNone
  end.

(** The reference names the resource [api_version]/[kind] and, when
    [controller_only], carries [controller: true]. *)
Definition owner_reference_matches (api_version kind : string)
    (controller_only : bool) (ref : pyval) : bool :=
  py_eq_str (ref_field ref "apiVersion") api_version &&
  py_eq_str (ref_field ref "kind") kind &&
  (negb controller_only ||
   match ref_field ref "controller" with PBool true => true | _ => false end).

(** Requests for the given names in one namespace, numbered from [id]. *)
Fixpoint requests_for (names : list pyval) (namespace : pyval) (id : nat)
    : list Request :=
  match names with
  | [] => []
  | n :: names' => mk_Request n namespace id :: requests_for names' namespace (S id)
  end.

(** The records that [_handle_request] logs. *)
Definition log_handling (lg : LoggerAdapter) (attempt : Z) : Event :=
  EvLog lg INFO "Handling reconcile request (attempt %d)" [ArgInt (attempt + 1)].

Definition log_error (lg : LoggerAdapter) : Event :=
  EvLog lg ERROR "Error handling reconcile request" [].

Definition log_requeuing (lg : LoggerAdapter) (delay : spec_float) : Event :=
  EvLog lg INFO "Requeuing request after %.3fs" [ArgFloat delay].

Definition log_success (lg : LoggerAdapter) : Event :=
  EvLog lg INFO "Successfully handled reconcile request" [].

(** The exception is one that [_handle_request] turns into a requeue: an
    [Exception] that is not a cancellation. *)
Definition is_failure (e : exn) : bool :=
  negb (isinstance e "CancelledError") && isinstance e "Exception".

(** The delay before the jitter and the attempt that goes with it: the
    delay that was asked for, with the attempt reset, or the backoff
    [min(2**attempt, requeue_max_backoff)]. *)
Definition requeue_base (max_backoff attempt : Z) (result : Result)
    : Outcome (pynum * Z) :=
  if truthy_opt_int (requeue_after result)
  then Ok (PyInt (default 0 (requeue_after result)), -1)
  else
    match py_pow2 attempt with
    | Ok power => Ok (py_min power (PyInt max_backoff), attempt)
    | Raise e => Raise e
    | Pending => Pending
    end.

(** [min(2**attempt, requeue_max_backoff) + jitter], as Python evaluates
    it. *)
Definition backoff_delay (max_backoff attempt : Z) (jitter : spec_float)
    : Outcome spec_float :=
  match py_pow2 attempt with
  | Ok power => py_add_float (py_min power (PyInt max_backoff)) jitter
  | Raise e => Raise e
  | Pending => Pending
  end.

(** What [_handle_request] does once the outcome of the reconcile function
    has become the [result]: the calls it adds to the world [w1]. *)
Definition settled (env : Env) (max_backoff : Z) (lg : LoggerAdapter)
    (queue : Queue) (request : Request) (attempt : Z) (result : Result)
    (w1 : World) : Outcome unit * World :=
  if requeue result then
    match requeue_base max_backoff attempt result with
    | Ok (base, a) =>
        let jitter := env_uniform env (history w1) 0 1 in
        match py_add_float base jitter with
        | Ok delay =>
            (Ok tt, extend w1 [EvUniform 0 1 jitter; log_requeuing lg delay;
                               EvRequeue queue request (a + 1) delay])
        | Raise e => (Raise e, extend w1 [EvUniform 0 1 jitter])
        | Pending => (Pending, extend w1 [EvUniform 0 1 jitter])
        end
    | Raise e => (Raise e, w1)
    | Pending => (Pending, w1)
    end
  else
    (Ok tt, extend w1 [log_success lg; EvProcessingComplete queue request]).

(** The value of a finite float, in lowest terms. *)
Definition float_value (f : spec_float) : option Q :=
  match f with
  | S754_zero _ => Some 0%Q
  | S754_finite s m e =>
      Some (Qred (inject_Z (if s then Zneg m else Zpos m) * 2 ^ e)%Q)
  | _ => None
  end.

(** The [result] that [_handle_request] settles on, for the outcomes of the
    reconcile function after which it has one. *)
Definition result_of (o : Outcome (option Result)) : option Result :=
  match o with
  | Ok returned => Some (default (Result_new false None) returned)
  | Raise e => if is_failure e then Some (Result_new true None) else None
  | Pending => None
  end.

(** The calls made on the queue by the handler of a request. *)
Definition is_queue_call (e : Event) : bool :=
  match e with
  | EvRequeue _ _ _ _ | EvProcessingComplete _ _ => true
  | _ => false
  end.

Definition queue_calls (w : World) : list Event :=
  List.filter is_queue_call (history w).

(** Where the dispatcher stands between two of its calls. *)
Inductive Phase : Type :=
| Polling
| Sleeping
| Eligible
| Reserved (worker : Worker)
| Dequeued (worker : Worker) (request : Request) (attempt : Z)
| Stopped.

(** The calls that the dispatch loop may make in each phase, and the phase
    that each leads to: poll the queue; sleep after a negative answer;
    reserve a worker after a positive one; dequeue once a worker is
    reserved; hand the dequeued request to that worker.  An awaited call
    that does not complete stops the loop. *)
Inductive dispatch_step (pool : WorkerPool) (queue : Queue)
    : Phase → Event → Phase → Prop :=
| step_eligible :
    dispatch_step pool queue Polling (EvHasEligible queue true) Eligible
| step_not_eligible :
    dispatch_step pool queue Polling (EvHasEligible queue false) Sleeping
| step_sleep :
    dispatch_step pool queue Sleeping (EvSleep (1 # 10) (Ok tt)) Polling
| step_sleep_stop o :
    o ≠ Ok tt →
    dispatch_step pool queue Sleeping (EvSleep (1 # 10) o) Stopped
| step_reserve worker :
    dispatch_step pool queue Eligible (EvReserve pool (Ok worker)) (Reserved worker)
| step_reserve_stop o :
    (∀ worker, o ≠ Ok worker) →
    dispatch_step pool queue Eligible (EvReserve pool o) Stopped
| step_dequeue worker request attempt :
    dispatch_step pool queue (Reserved worker)
      (EvDequeue queue (Ok (request, attempt)))
      (Dequeued worker request attempt)
| step_dequeue_stop worker o :
    (∀ x, o ≠ Ok x) →
    dispatch_step pool queue (Reserved worker) (EvDequeue queue o) Stopped
| step_set_task worker request attempt :
    dispatch_step pool queue (Dequeued worker request attempt)
      (EvSetTask worker (mk_Task queue (worker_id worker) request attempt))
      Polling.

Inductive dispatch_steps (pool : WorkerPool) (queue : Queue)
    : Phase → list Event → Phase → Prop :=
| steps_nil ph : dispatch_steps pool queue ph [] ph
| steps_cons ph e ph' t ph'' :
    dispatch_step pool queue ph e ph' →
    dispatch_steps pool queue ph' t ph'' →
    dispatch_steps pool queue ph (e :: t) ph''.

(** The phases in which a run of the loop can end. *)
Definition halted (ph : Phase) : Prop := ph = Polling ∨ ph = Stopped.

(** Unfold the effects of a computation, and nothing of its arithmetic. *)
Ltac run_effects :=
  cbv beta iota zeta delta
    [bind of_outcome ret raise random_uniform call log_info log_exception
     queue_requeue processing_complete emit extend history next_request_id
     try_except_else List.find fst snd settled requeue_base
     log_handling log_error log_requeuing log_success].

(* ===================================================================== *)
(** ** Sample inputs *)
(* ===================================================================== *)

Definition world0 : World := mk_World [] 0.

Definition sample_reference (name : string) (controller : option bool) : pyval :=
  PDict (list_to_map
    ([("apiVersion", PStr "example.org/v1"); ("kind", PStr "Parent");
      ("name", PStr name); ("uid", PStr "0000")] ++
     match controller with
     | Some b => [("controller", PBool b)]
     | None => []
     end)).

Definition sample_metadata (name : string) (refs : option (list pyval))
    : gmap string pyval :=
  list_to_map
    ([("name", PStr name); ("namespace", PStr "ns")] ++
     match refs with
     | Some l => [("ownerReferences", PList l)]
     | None => []
     end).

Definition sample_object (name : string) (refs : option (list pyval)) : pyval :=
  PDict (list_to_map
    [("apiVersion", PStr "v1"); ("kind", PStr "ConfigMap");
     ("metadata", PDict (sample_metadata name refs))]).

(** A controller for [example.org/v1] [Parent] whose reconcile function
    ends with the given outcome. *)
Definition sample_controller (o : Outcome (option Result)) : Controller unit :=
  __init__ "example.org/v1" "Parent" (fun _ _ => of_outcome o) no_kwargs.

Definition sample_request : Request := mk_Request (PStr "x") (PStr "ns") 0.

Definition sample_queue : Queue := mk_Queue 0.

(** The float [0.5]. *)
Definition float_half : spec_float := S754_finite false 4503599627370496 (-53).

(** The largest float below 1, [1 - 2**-53]. *)
Definition float_below_one : spec_float :=
  S754_finite false 9007199254740991 (-53).

(** An environment in which every draw of the random source is one half, a
    request is always eligible, and every awaited call completes. *)
Definition sample_env : Env :=
  mk_Env (fun _ _ _ => float_half) (fun _ => true) (fun _ => Ok tt)
    (fun _ => Ok (mk_Worker 4)) (fun _ => Ok (sample_request, 2)).

(** [_handle_request] on the sample request, dequeued with [attempt], for
    a reconcile function that ends with the outcome [o]. *)
Definition sample_run (o : Outcome (option Result)) (attempt : Z)
    : Outcome unit * World :=
  _handle_request sample_env (sample_controller o) tt sample_queue 7
    sample_request attempt world0.

(* ===================================================================== *)
(** ** Builder calls and counts over a history *)
(* ===================================================================== *)

(** A call of one of the two builder methods, as in
    [Controller(...).owns(...).watches(...)]. *)
Inductive BuilderCall : Type :=
| CallOwns (api_version kind : string) (controller_only : option bool)
| CallWatches (api_version kind : string) (mapper : pyval → M (list Request))
    (labels : option (gmap string LabelValue)) (namespace : option string).

Definition apply_call {AsyncClient : Type} (self : Controller AsyncClient)
    (c : BuilderCall) : Controller AsyncClient :=
  match c with
  | CallOwns api_version kind controller_only =>
      owns self api_version kind controller_only
  | CallWatches api_version kind mapper labels namespace =>
      watches self api_version kind mapper labels namespace
  end.

Definition build {AsyncClient : Type} (self : Controller AsyncClient)
    (calls : list BuilderCall) : Controller AsyncClient :=
  fold_left apply_call calls self.

Definition call_resource (c : BuilderCall) : string * string :=
  match c with
  | CallOwns api_version kind _ => (api_version, kind)
  | CallWatches api_version kind _ _ _ => (api_version, kind)
  end.

(** A namespace that restricts a watch: given and not empty. *)
Definition namespaced (namespace : option string) : Prop :=
  ∃ s, namespace = Some s ∧ s ≠ "".

Definition positive_polls (t : list Event) : nat :=
  length (List.filter
    (fun e => match e with EvHasEligible _ true => true | _ => false end) t).

Definition reserve_calls (t : list Event) : nat :=
  length (List.filter
    (fun e => match e with EvReserve _ _ => true | _ => false end) t).

(** The requests that [dequeue] returned, with their attempts, in order. *)
Definition dequeued_pairs (t : list Event) : list (Request * Z) :=
  flat_map (fun e => match e with EvDequeue _ (Ok p) => [p] | _ => [] end) t.

(** The requests handed to workers, with their attempts, in order. *)
Definition handed_pairs (t : list Event) : list (Request * Z) :=
  flat_map
    (fun e =>
       match e with
       | EvSetTask _ task => [(task_request task, task_attempt task)]
       | _ => []
       end) t.

Definition reserved_workers (t : list Event) : list Worker :=
  flat_map (fun e => match e with EvReserve _ (Ok w) => [w] | _ => [] end) t.

Definition task_workers (t : list Event) : list Worker :=
  flat_map (fun e => match e with EvSetTask w _ => [w] | _ => [] end) t.

(** A [dequeue] that did not complete. *)
Definition is_failed_dequeue (e : Event) : bool :=
  match e with
  | EvDequeue _ (Ok _) => false
  | EvDequeue _ _ => true
  | _ => false
  end.

(** A poll of the queue or a sleep: the calls of an idle dispatcher. *)
Definition is_poll_or_sleep (e : Event) : bool :=
  match e with
  | EvHasEligible _ _ | EvSleep _ _ => true
  | _ => false
  end.

(** The request that a phase holds between the dequeue and the hand-over,
    and the worker that it holds between the reservation and the hand-over. *)
Definition phase_pair (ph : Phase) : list (Request * Z) :=
  match ph with
  | Dequeued _ request attempt => [(request, attempt)]
  | _ => []
  end.

Definition phase_worker (ph : Phase) : list Worker :=
  match ph with
  | Reserved w | Dequeued w _ _ => [w]
  | _ => []
  end.

Definition phase_eligible (ph : Phase) : nat :=
  match ph with
  | Eligible => 1
  | _ => 0
  end.

(* ===================================================================== *)
(** ** The mappers *)
(* ===================================================================== *)

Lemma requests_for_names names namespace id :
  List.map req_name (requests_for names namespace id) = names.
Proof.
  revert id; induction names as [|n names IH]; intros id; simpl; [done|].
  by rewrite IH.
Qed.

Lemma requests_for_length names namespace id :
  length (requests_for names namespace id) = length names.
Proof.
  revert id; induction names as [|n names IH]; intros id; simpl; [done|].
  by rewrite IH.
Qed.

Lemma requests_for_ids names namespace id :
  List.map req_id (requests_for names namespace id) = seq id (length names).
Proof.
  revert id; induction names as [|n names IH]; intros id; simpl; [done|].
  by rewrite IH.
Qed.

Lemma requests_for_namespace names namespace id r :
  In r (requests_for names namespace id) → req_namespace r = namespace.
Proof.
  revert id; induction names as [|n names IH]; intros id; simpl; [tauto|].
  intros [<-|Hin]; [done|eauto].
Qed.

Lemma getitem_metadata obj m w :
  metadata_of obj = Some m → getitem obj "metadata" w = (Ok (PDict m), w).
Proof.
  unfold metadata_of, getitem. destruct obj as [| | | | |d]; try discriminate.
  destruct (d !! "metadata") as [[| | | | |m']|]; try discriminate.
  by intros [= ->].
Qed.

(** The condition of the comprehension on a well-formed reference. *)
Lemma owns_condition_wf api_version kind controller_only ref w :
  owner_reference_wf ref = true →
  owns_condition api_version kind controller_only ref w =
    (Ok (owner_reference_matches api_version kind controller_only ref), w).
Proof.
  unfold owner_reference_wf, owns_condition, owner_reference_matches, ref_field.
  destruct ref as [| | | | |r]; try discriminate.
  intros Hwf. repeat (apply andb_prop in Hwf as [Hwf ?]).
  repeat match goal with
         | H : bool_decide (is_Some _) = true |- _ =>
             apply bool_decide_eq_true_1 in H as [? H]
         end.
  unfold bind, getitem, dict_get, ret.
  repeat match goal with H : r !! _ = Some _ |- _ => rewrite H; clear H end.
  simpl.
  destruct (py_eq_str _ api_version); simpl; [|done].
  destruct (py_eq_str _ kind); simpl; [|done].
  destruct controller_only; simpl; [|done].
  destruct (r !! "controller") as [[| [] | | | |]|]; simpl in *; done.
Qed.

(** The comprehension over well-formed references: one request per matching
    reference, in order, numbered from the counter. *)
Lemma owns_comprehension_wf api_version kind controller_only obj m refs w :
  metadata_of obj = Some m →
  forallb owner_reference_wf refs = true →
  owns_comprehension api_version kind controller_only obj refs w =
    let selected :=
      List.filter (owner_reference_matches api_version kind controller_only) refs in
    (Ok (requests_for (List.map (fun ref => ref_field ref "name") selected)
           (default PNone (m !! "namespace")) (next_request_id w)),
     mk_World (history w) (next_request_id w + length selected)).
Proof.
  intros Hm. revert w.
  induction refs as [|ref refs IH]; intros w Hwf; simpl in *.
  - unfold ret. destruct w; simpl. by rewrite Nat.add_0_r.
  - apply andb_prop in Hwf as [Href Hrefs].
    unfold bind at 1. rewrite (owns_condition_wf _ _ _ _ _ Href).
    destruct (owner_reference_matches _ _ _ ref) eqn:Hsel; simpl.
    + assert (Hname : getitem ref "name" w = (Ok (ref_field ref "name"), w)).
      { unfold owner_reference_wf in Href. destruct ref as [| | | | |r]; try done.
        repeat (apply andb_prop in Href as [Href ?]).
        match goal with
        | H : bool_decide (is_Some (r !! "name")) = true |- _ =>
            apply bool_decide_eq_true_1 in H as [x Hx]
        end.
        unfold getitem, ref_field. by rewrite Hx. }
      unfold bind at 1. rewrite Hname.
      unfold bind at 1. rewrite (getitem_metadata _ _ _ Hm).
      unfold bind at 1. unfold dict_get at 1, ret at 1.
      unfold bind at 1. unfold Request_new at 1.
      unfold bind at 1. rewrite (IH _ Hrefs). simpl. unfold ret.
      do 2 f_equal. lia.
    + by rewrite (IH _ Hrefs).
Qed.

Lemma bind_run {A B} (m : M A) (k : A → M B) (w : World) :
  bind m k w =
    match m w with
    | (Ok a, w') => k a w'
    | (Raise e, w') => (Raise e, w')
    | (Pending, w') => (Pending, w')
    end.
Proof. reflexivity. Qed.

(** The comprehension reads the object only for its namespace. *)
Lemma owns_comprehension_namespace api_version kind controller_only
    obj m obj' m' refs w :
  metadata_of obj = Some m →
  metadata_of obj' = Some m' →
  m !! "namespace" = m' !! "namespace" →
  owns_comprehension api_version kind controller_only obj refs w =
  owns_comprehension api_version kind controller_only obj' refs w.
Proof.
  intros Hm Hm' Hns. revert w.
  induction refs as [|ref refs IH]; intros w; simpl; [done|].
  rewrite !bind_run.
  destruct (owns_condition _ _ _ ref w) as [[[|]|e|] w1]; try done.
  rewrite !bind_run.
  destruct (getitem ref "name" w1) as [[name|e|] w2]; try done.
  rewrite !bind_run.
  rewrite (getitem_metadata _ _ _ Hm), (getitem_metadata _ _ _ Hm').
  rewrite !bind_run. unfold dict_get, ret, Request_new.
  rewrite !bind_run, Hns, IH. done.
Qed.

(** A reference on which the condition is false leaves no trace in the
    result of the comprehension. *)
Lemma owns_comprehension_skip api_version kind controller_only obj ref pre post :
  (∀ w, owns_condition api_version kind controller_only ref w = (Ok false, w)) →
  ∀ w,
    owns_comprehension api_version kind controller_only obj (pre ++ ref :: post) w =
    owns_comprehension api_version kind controller_only obj (pre ++ post) w.
Proof.
  intros Hskip.
  induction pre as [|x pre IH]; intros w; simpl.
  - by rewrite bind_run, Hskip.
  - rewrite !bind_run.
    destruct (owns_condition _ _ _ x w) as [[[|]|e|] w1]; try done.
    rewrite !bind_run.
    destruct (getitem x "name" w1) as [[name|e|] w2]; try done.
    rewrite !bind_run.
    destruct (getitem obj "metadata" w2) as [[md|e|] w3]; try done.
    rewrite !bind_run.
    destruct (dict_get md "namespace" PNone w3) as [[ns|e|] w4]; try done.
    rewrite !bind_run.
    destruct (Request_new name ns w4) as [[r|e|] w5]; try done.
    by rewrite !bind_run, IH.
Qed.

(** With [controller_only], a reference to the controller's resource whose
    [controller] key is absent or false does not pass the condition. *)
Lemma owns_condition_not_controller api_version kind r w :
  r !! "apiVersion" = Some (PStr api_version) →
  r !! "kind" = Some (PStr kind) →
  r !! "controller" = None ∨ r !! "controller" = Some (PBool false) →
  owns_condition api_version kind true (PDict r) w = (Ok false, w).
Proof.
  intros Ha Hk Hc. unfold owns_condition, bind, getitem, dict_get, ret.
  rewrite Ha, Hk. simpl. rewrite !String.eqb_refl. simpl.
  by destruct Hc as [-> | ->].
Qed.

(** C6.  A watch registered by [owns] maps an object to exactly one request
    per owner reference that names the controller's own resource and, when
    [controller_only] is true, has its [controller] flag set: the requests
    carry the names of these references, in order, and the namespace of the
    observed object; nothing of the object's own name enters. *)
Theorem owns_watch_one_request_per_matching_reference :
  ∀ (AsyncClient : Type) (self : Controller AsyncClient)
    (api_version kind : string) (controller_only : option bool)
    (obj : pyval) (m : gmap string pyval) (refs : list pyval) (w : World),
    metadata_of obj = Some m →
    owner_references m = Some refs →
    forallb owner_reference_wf refs = true →
    ∃ (watch : Watch) (rs : list Request),
      let selected :=
        List.filter
          (owner_reference_matches (_api_version self) (_kind self)
             (default true controller_only)) refs in
      _watches (owns self api_version kind controller_only) =
        _watches self ++ [watch] ∧
      watch_api_version watch = api_version ∧
      watch_kind watch = kind ∧
      watch_mapper watch obj w =
        (Ok rs, mk_World (history w) (next_request_id w + length selected)) ∧
      length rs = length selected ∧
      List.map req_name rs = List.map (fun ref => ref_field ref "name") selected ∧
      (∀ r, In r rs → req_namespace r = default PNone (m !! "namespace")) ∧
      List.map req_id rs = seq (next_request_id w) (length selected).
Proof.
  intros AsyncClient self api_version kind controller_only obj m refs w Hm Hrefs Hwf.
  eexists; eexists; cbn zeta.
  split; [reflexivity|]. split; [reflexivity|]. split; [reflexivity|].
  cbn [watch_mapper]. unfold owns_mapper.
  rewrite bind_run, (getitem_metadata _ _ _ Hm).
  assert (Hiter : ∀ w',
    bind (dict_get (PDict m) "ownerReferences" (PList []))
      (fun iterable => bind (py_iter iterable)
         (owns_comprehension (_api_version self) (_kind self)
            (default true controller_only) obj)) w' =
    owns_comprehension (_api_version self) (_kind self)
      (default true controller_only) obj refs w').
  { intros w'. unfold owner_references in Hrefs.
    rewrite bind_run. unfold dict_get, ret.
    destruct (m !! "ownerReferences") as [[| | | |l|]|]; try discriminate;
      injection Hrefs as <-; done. }
  rewrite Hiter, (owns_comprehension_wf _ _ _ _ _ _ _ Hm Hwf). cbn zeta.
  split; [reflexivity|].
  split; [by rewrite requests_for_length, length_map|].
  split; [by rewrite requests_for_names|].
  split; [intros r; apply requests_for_namespace|].
  by rewrite requests_for_ids, length_map.
Qed.

(** The scenario of the design document: a child whose single owner
    reference names "parent" yields one request, for "parent". *)
Lemma owns_watch_one_request_per_matching_reference_witness :
  let self := sample_controller (Ok None) in
  let child :=
    sample_object "child-7" (Some [sample_reference "parent" (Some true)]) in
  ∃ (watch : Watch) (rs : list Request),
    _watches (owns self "v1" "ConfigMap" None) = _watches self ++ [watch] ∧
    watch_mapper watch child world0 = (Ok rs, mk_World [] 1) ∧
    List.map req_name rs = [PStr "parent"].
Proof.
  intros self child.
  destruct (owns_watch_one_request_per_matching_reference
              unit self "v1" "ConfigMap" None child
              (sample_metadata "child-7" (Some [sample_reference "parent" (Some true)]))
              [sample_reference "parent" (Some true)] world0)
    as (watch & rs & Hw & _ & _ & Hrun & _ & Hnames & _);
    [reflexivity | reflexivity | reflexivity |].
  exists watch, rs. split; [exact Hw|]. split; [exact Hrun | exact Hnames].
Defined.

(** C7.  The primary watch, the only watch of a new controller, maps an
    object to exactly one request: its name is the object's
    [metadata.name] and its namespace the object's [metadata.namespace],
    [None] when the object has none. *)
Theorem primary_watch_one_request :
  ∀ (AsyncClient : Type) (api_version kind : string)
    (reconcile_func : ReconcileFunc AsyncClient) (kw : Kwargs)
    (obj : pyval) (m : gmap string pyval) (name : pyval) (w : World),
    metadata_of obj = Some m →
    m !! "name" = Some name →
    ∃ watch : Watch,
      _watches (__init__ api_version kind reconcile_func kw) = [watch] ∧
      watch_api_version watch = api_version ∧
      watch_kind watch = kind ∧
      watch_mapper watch obj w =
        (Ok [mk_Request name (default PNone (m !! "namespace"))
               (next_request_id w)],
         mk_World (history w) (S (next_request_id w))) ∧
      (m !! "namespace" = None →
       watch_mapper watch obj w =
         (Ok [mk_Request name PNone (next_request_id w)],
          mk_World (history w) (S (next_request_id w)))).
Proof.
  intros AsyncClient api_version kind reconcile_func kw obj m name w Hm Hname.
  eexists. split; [reflexivity|]. split; [reflexivity|]. split; [reflexivity|].
  cbn [watch_mapper]. unfold primary_mapper.
  assert (Hrun : ∀ ns, default PNone (m !! "namespace") = ns →
    bind (getitem obj "metadata") (fun md =>
      bind (getitem md "name") (fun name0 =>
        bind (getitem obj "metadata") (fun md' =>
          bind (dict_get md' "namespace" PNone) (fun namespace =>
            bind (Request_new name0 namespace) (fun r => ret [r]))))) w =
    (Ok [mk_Request name ns (next_request_id w)],
     mk_World (history w) (S (next_request_id w)))).
  { intros ns <-.
    rewrite bind_run, (getitem_metadata _ _ _ Hm).
    rewrite bind_run. unfold getitem at 1. rewrite Hname. unfold ret at 1.
    rewrite bind_run, (getitem_metadata _ _ _ Hm).
    reflexivity. }
  split; [by apply Hrun|].
  intros Hns. apply Hrun. by rewrite Hns.
Qed.

Lemma primary_watch_one_request_witness :
  ∃ watch : Watch,
    _watches (sample_controller (Ok None)) = [watch] ∧
    watch_mapper watch (sample_object "x" None) world0 =
      (Ok [mk_Request (PStr "x") (PStr "ns") 0], mk_World [] 1).
Proof.
  destruct (primary_watch_one_request unit "example.org/v1" "Parent"
              (fun _ _ => of_outcome (Ok None)) no_kwargs
              (sample_object "x" None) (sample_metadata "x" None) (PStr "x")
              world0)
    as (watch & Hw & _ & _ & Hrun & _); [reflexivity | reflexivity |].
  exists watch. split; [exact Hw | exact Hrun].
Defined.

(** C9.  For the watch that [owns] registers with the default
    [controller_only]: an object whose metadata has no [ownerReferences]
    key yields no request and no error; and an owner reference to the
    controller's resource whose [controller] key is absent or false does
    not pass the condition, so that the object yields what it would yield
    without that reference. *)
Theorem owns_watch_skips_missing_and_non_controller_references :
  ∀ (AsyncClient : Type) (self : Controller AsyncClient)
    (api_version kind : string) (obj : pyval) (m : gmap string pyval),
    metadata_of obj = Some m →
    ∃ watch : Watch,
      _watches (owns self api_version kind None) = _watches self ++ [watch] ∧
      (m !! "ownerReferences" = None →
       ∀ w, watch_mapper watch obj w = (Ok [], w)) ∧
      (∀ (pre post : list pyval) (r : gmap string pyval)
         (obj' : pyval) (m' : gmap string pyval),
         m !! "ownerReferences" = Some (PList (pre ++ PDict r :: post)) →
         r !! "apiVersion" = Some (PStr (_api_version self)) →
         r !! "kind" = Some (PStr (_kind self)) →
         r !! "controller" = None ∨ r !! "controller" = Some (PBool false) →
         metadata_of obj' = Some m' →
         m' !! "namespace" = m !! "namespace" →
         m' !! "ownerReferences" = Some (PList (pre ++ post)) →
         ∀ w,
           owns_condition (_api_version self) (_kind self) true (PDict r) w =
             (Ok false, w) ∧
           watch_mapper watch obj w = watch_mapper watch obj' w).
Proof.
  intros AsyncClient self api_version kind obj m Hm.
  eexists. split; [reflexivity|]. cbn [watch_mapper default from_option id].
  split.
  - intros Hnone w. unfold owns_mapper.
    rewrite bind_run, (getitem_metadata _ _ _ Hm).
    rewrite bind_run. unfold dict_get at 1. rewrite Hnone. reflexivity.
  - intros pre post r obj' m' Hrefs Ha Hk Hc Hm' Hns Hrefs' w.
    split; [by apply owns_condition_not_controller|].
    unfold owns_mapper.
    rewrite !bind_run, (getitem_metadata _ _ _ Hm), (getitem_metadata _ _ _ Hm').
    rewrite !bind_run. unfold dict_get at 1 2. rewrite Hrefs, Hrefs'.
    unfold default, from_option, id, ret at 1 2.
    rewrite !bind_run. unfold py_iter at 1 2, ret at 1 2.
    rewrite owns_comprehension_skip
      by (intros w'; by apply owns_condition_not_controller).
    by apply (owns_comprehension_namespace _ _ _ obj m obj' m').
Qed.

Lemma owns_watch_skips_missing_and_non_controller_references_witness :
  let self := sample_controller (Ok None) in
  ∃ watch : Watch,
    _watches (owns self "v1" "ConfigMap" None) = _watches self ++ [watch] ∧
    watch_mapper watch (sample_object "child-7" None) world0 = (Ok [], world0) ∧
    watch_mapper watch
      (sample_object "child-7"
         (Some [sample_reference "a" (Some true); sample_reference "b" None;
                sample_reference "c" (Some true)])) world0 =
    watch_mapper watch
      (sample_object "child-8"
         (Some [sample_reference "a" (Some true);
                sample_reference "c" (Some true)])) world0.
Proof.
  intros self.
  destruct (owns_watch_skips_missing_and_non_controller_references
              unit self "v1" "ConfigMap"
              (sample_object "child-7" None) (sample_metadata "child-7" None))
    as (watch & Hw & Hnone & _); [reflexivity|].
  exists watch. split; [exact Hw|]. split; [by apply Hnone|].
  destruct (owns_watch_skips_missing_and_non_controller_references
              unit self "v1" "ConfigMap"
              (sample_object "child-7"
                 (Some [sample_reference "a" (Some true); sample_reference "b" None;
                        sample_reference "c" (Some true)]))
              (sample_metadata "child-7"
                 (Some [sample_reference "a" (Some true); sample_reference "b" None;
                        sample_reference "c" (Some true)])))
    as (watch' & Hw' & _ & Hskip); [reflexivity|].
  assert (watch' = watch) as ->.
  { rewrite Hw in Hw'. apply app_inv_head in Hw'. by injection Hw'. }
  refine (proj2 (Hskip [sample_reference "a" (Some true)]
                   [sample_reference "c" (Some true)]
                   (list_to_map
                      [("apiVersion", PStr "example.org/v1"); ("kind", PStr "Parent");
                       ("name", PStr "b"); ("uid", PStr "0000")])
                   (sample_object "child-8"
                      (Some [sample_reference "a" (Some true);
                             sample_reference "c" (Some true)]))
                   (sample_metadata "child-8"
                      (Some [sample_reference "a" (Some true);
                             sample_reference "c" (Some true)]))
                   _ _ _ _ _ _ _ world0));
    try reflexivity.
  left; reflexivity.
Defined.

(** C10.  The constructor keeps a worker pool that is passed to it, whatever
    [worker_count] is; it builds a pool of capacity [worker_count], ten by
    default, exactly when no pool is passed. *)
Theorem init_worker_pool :
  ∀ (AsyncClient : Type) (api_version kind : string)
    (reconcile_func : ReconcileFunc AsyncClient)
    (labels : option (gmap string LabelValue)) (namespace : option string)
    (worker_count : option Z) (worker_pool : option WorkerPool)
    (requeue_max_backoff : option Z),
    let self :=
      __init__ api_version kind reconcile_func
        (mk_Kwargs labels namespace worker_count worker_pool requeue_max_backoff) in
    match worker_pool with
    | Some pool =>
        _worker_pool self = pool ∧
        ∀ worker_count' : option Z,
          _worker_pool
            (__init__ api_version kind reconcile_func
               (mk_Kwargs labels namespace worker_count' worker_pool
                  requeue_max_backoff)) = pool
    | None =>
        _worker_pool self = WorkerPool_new (default 10 worker_count) ∧
        pool_capacity (_worker_pool self) =
          match worker_count with Some n => n | None => 10 end
    end.
Proof.
  intros AsyncClient api_version kind reconcile_func labels namespace
    worker_count worker_pool requeue_max_backoff self.
  destruct worker_pool as [pool|]; subst self; cbn.
  - split; [reflexivity | intros; reflexivity].
  - split; [reflexivity | by destruct worker_count].
Qed.

(* ===================================================================== *)
(** ** Handling a request *)
(* ===================================================================== *)

Lemma extend_extend w es es' : extend (extend w es) es' = extend w (es ++ es').
Proof. unfold extend; simpl. by rewrite app_assoc. Qed.

Lemma emit_run e w : emit e w = (Ok tt, extend w [e]).
Proof. reflexivity. Qed.

Lemma queue_calls_extend w es :
  queue_calls (extend w es) = queue_calls w ++ List.filter is_queue_call es.
Proof. unfold queue_calls, extend. cbn. by rewrite List.filter_app. Qed.

Lemma extend_nil w : extend w [] = w.
Proof. unfold extend. rewrite app_nil_r. by destruct w. Qed.

(** [_handle_request], one case per outcome of the reconcile function. *)
Lemma handle_request_run {AsyncClient : Type} (env : Env)
    (self : Controller AsyncClient) client queue worker_id request attempt w :
  let lg := _request_logger self request worker_id in
  _handle_request env self client queue worker_id request attempt w =
    match _reconcile_func self client request (extend w [log_handling lg attempt]) with
    | (Ok result, w1) =>
        settled env (_requeue_max_backoff self) lg queue request attempt
          (default (Result_new false None) result) w1
    | (Raise e, w1) =>
        if isinstance e "CancelledError" then (Raise e, w1)
        else if isinstance e "Exception" then
          settled env (_requeue_max_backoff self) lg queue request attempt
            (Result_new true None) (extend w1 [log_error lg])
        else (Raise e, w1)
    | (Pending, w1) => (Pending, w1)
    end.
Proof.
  intros lg. subst lg. unfold _handle_request. run_effects.
  destruct (_reconcile_func self client request _) as [[returned|e|] w1];
    [| |reflexivity].
  - destruct (requeue (default (Result_new false None) returned));
      [|by rewrite <- !app_assoc].
    destruct (truthy_opt_int _);
      [|destruct (py_pow2 attempt) as [power|x|]; [|reflexivity|reflexivity]];
      destruct (py_add_float _ _) as [delay|x|];
      by rewrite <- ?app_assoc.
  - destruct (isinstance e "CancelledError"); [reflexivity|].
    destruct (isinstance e "Exception"); [|reflexivity].
    cbn [requeue requeue_after Result_new orb truthy_opt_int].
    destruct (py_pow2 attempt) as [power|x|]; [|reflexivity|reflexivity].
    destruct (py_add_float _ _) as [delay|x|]; by rewrite <- ?app_assoc.
Qed.

(** The conversion of an [int] to a float raises nothing but
    [OverflowError], and so do the operations that convert. *)
Lemma float_of_int_outcome n :
  match float_of_int n with
  | Ok _ => True
  | Raise x => isinstance x "OverflowError" = true
  | Pending => False
  end.
Proof. unfold float_of_int. by destruct (binary_normalize 53 1024 n 0 false). Qed.

Lemma py_pow2_outcome n :
  match py_pow2 n with
  | Ok _ => True
  | Raise x => isinstance x "OverflowError" = true
  | Pending => False
  end.
Proof.
  unfold py_pow2. destruct (0 <=? n); [done|].
  pose proof (float_of_int_outcome n) as H. by destruct (float_of_int n).
Qed.

Lemma py_add_float_outcome x y :
  match py_add_float x y with
  | Ok _ => True
  | Raise e => isinstance e "OverflowError" = true
  | Pending => False
  end.
Proof.
  destruct x as [n|f]; [|done]. cbn.
  pose proof (float_of_int_outcome n) as H. by destruct (float_of_int n).
Qed.

Lemma py_min_int a b : py_min (PyInt a) (PyInt b) = PyInt (Z.min a b).
Proof.
  unfold py_min, py_lt. destruct (Z.ltb_spec b a).
  - by rewrite Z.min_r by lia.
  - by rewrite Z.min_l by lia.
Qed.

(** For an attempt that is not negative the backoff is an [int], which is
    converted when the jitter is added. *)
Lemma backoff_delay_int max_backoff attempt jitter :
  0 <= attempt →
  backoff_delay max_backoff attempt jitter =
    match float_of_int (Z.min (2 ^ attempt) max_backoff) with
    | Ok base => Ok (SFadd 53 1024 base jitter)
    | Raise x => Raise x
    | Pending => Pending
    end.
Proof.
  intros Hnn. unfold backoff_delay, py_pow2.
  destruct (Z.leb_spec 0 attempt); [|lia].
  by rewrite py_min_int.
Qed.

(** Settling a result that asks for a requeue without a delay of its own. *)
Lemma settled_backoff env max_backoff lg queue request attempt result w1 :
  requeue result = true →
  truthy_opt_int (requeue_after result) = false →
  let run := settled env max_backoff lg queue request attempt result w1 in
  let jitter := env_uniform env (history w1) 0 1 in
  match backoff_delay max_backoff attempt jitter with
  | Ok delay =>
      run = (Ok tt, extend w1 [EvUniform 0 1 jitter; log_requeuing lg delay;
                               EvRequeue queue request (attempt + 1) delay])
  | Raise x =>
      isinstance x "OverflowError" = true ∧ fst run = Raise x ∧
      queue_calls (snd run) = queue_calls w1
  | Pending => False
  end.
Proof.
  intros Hrq Hexplicit. cbn zeta.
  unfold settled, requeue_base, backoff_delay. rewrite Hrq, Hexplicit.
  pose proof (py_pow2_outcome attempt) as Hpow.
  destruct (py_pow2 attempt) as [power|x|]; [|done|done].
  pose proof (py_add_float_outcome (py_min power (PyInt max_backoff))
                (env_uniform env (history w1) 0 1)) as Hadd.
  destruct (py_add_float _ _) as [delay|x|]; [done| |done].
  split; [done|]. split; [done|].
  cbn [snd]. by rewrite queue_calls_extend, app_nil_r.
Qed.

(** Settling a result that asks for a requeue after a delay of its own. *)
Lemma settled_explicit env max_backoff lg queue request attempt result w1 d :
  requeue result = true →
  requeue_after result = Some d →
  d ≠ 0 →
  let run := settled env max_backoff lg queue request attempt result w1 in
  let jitter := env_uniform env (history w1) 0 1 in
  match py_add_float (PyInt d) jitter with
  | Ok delay =>
      run = (Ok tt, extend w1 [EvUniform 0 1 jitter; log_requeuing lg delay;
                               EvRequeue queue request 0 delay])
  | Raise x =>
      isinstance x "OverflowError" = true ∧ fst run = Raise x ∧
      queue_calls (snd run) = queue_calls w1
  | Pending => False
  end.
Proof.
  intros Hrq Hafter Hd. cbn zeta.
  unfold settled, requeue_base. rewrite Hrq, Hafter.
  cbn [truthy_opt_int default from_option id].
  apply Z.eqb_neq in Hd. rewrite Hd. cbn [negb].
  pose proof (py_add_float_outcome (PyInt d)
                (env_uniform env (history w1) 0 1)) as Hadd.
  destruct (py_add_float _ _) as [delay|x|]; [done| |done].
  split; [done|]. split; [done|].
  cbn [snd]. by rewrite queue_calls_extend, app_nil_r.
Qed.

(** C1, as the code has it.  When the reconcile function raises: a
    cancellation is re-raised as it is and no call follows; an exception that
    is an instance of [Exception] (and not a cancellation) is logged and
    handled as the result [{requeue: true}]: the jitter is drawn and, when
    the backoff plus the jitter can be formed as a float, the request is
    requeued and [_handle_request] returns normally (a backoff too large for
    a float makes the addition raise [OverflowError], which leaves
    [_handle_request] with no call on the queue); any other exception (one
    outside [Exception], such as [SystemExit]) is no clause's and
    propagates. *)
Theorem handle_request_exceptions :
  ∀ (AsyncClient : Type) (env : Env) (self : Controller AsyncClient)
    (client : AsyncClient) (queue : Queue) (worker_id : nat)
    (request : Request) (attempt : Z) (w w1 : World) (e : exn),
    let lg := _request_logger self request worker_id in
    let run := _handle_request env self client queue worker_id request attempt w in
    _reconcile_func self client request (extend w [log_handling lg attempt]) =
      (Raise e, w1) →
    (isinstance e "CancelledError" = true → run = (Raise e, w1)) ∧
    (isinstance e "CancelledError" = false → isinstance e "Exception" = true →
     let jitter := env_uniform env (history w1 ++ [log_error lg]) 0 1 in
     match backoff_delay (_requeue_max_backoff self) attempt jitter with
     | Ok delay =>
         run = (Ok tt,
                extend w1 [log_error lg; EvUniform 0 1 jitter;
                           log_requeuing lg delay;
                           EvRequeue queue request (attempt + 1) delay]) ∧
         queue_calls (snd run) =
           queue_calls w1 ++ [EvRequeue queue request (attempt + 1) delay]
     | Raise x =>
         isinstance x "OverflowError" = true ∧ fst run = Raise x ∧
         queue_calls (snd run) = queue_calls w1
     | Pending => False
     end) ∧
    (isinstance e "CancelledError" = false → isinstance e "Exception" = false →
     run = (Raise e, w1)).
Proof.
  intros AsyncClient env self client queue worker_id request attempt w w1 e
    lg run Hrec.
  subst run. rewrite handle_request_run. fold lg. rewrite Hrec.
  split; [by intros ->|]. split; [|by intros -> ->].
  intros -> ->. cbn zeta.
  pose proof (settled_backoff env (_requeue_max_backoff self) lg queue request
                attempt (Result_new true None) (extend w1 [log_error lg])
                eq_refl eq_refl) as Hsettled.
  cbn zeta in Hsettled. cbn [extend history] in Hsettled.
  destruct (backoff_delay _ _ _) as [delay|x|]; [| |done].
  - rewrite Hsettled. fold (extend w1 [log_error lg]).
    rewrite extend_extend. cbn [app]. split; [reflexivity|].
    cbn [snd]. by rewrite queue_calls_extend.
  - destruct Hsettled as (Hx & Hfst & Hcalls). split; [exact Hx|].
    split; [exact Hfst|].
    fold (extend w1 [log_error lg]) in Hcalls.
    by rewrite Hcalls, queue_calls_extend, app_nil_r.
Qed.

Lemma handle_request_exceptions_witness :
  sample_run (Raise CancelledError) 3 =
    (Raise CancelledError, extend world0 [log_handling
       (_request_logger (sample_controller (Raise CancelledError))
          sample_request 7) 3]) ∧
  ∃ delay : spec_float,
    queue_calls (snd (sample_run (Raise (RuntimeError "boom")) 3)) =
      [EvRequeue sample_queue sample_request 4 delay].
Proof.
  split.
  - refine (proj1 (handle_request_exceptions unit sample_env
                     (sample_controller (Raise CancelledError)) tt sample_queue 7
                     sample_request 3 world0 _ CancelledError _) _);
      reflexivity.
  - pose proof (proj1 (proj2 (handle_request_exceptions unit sample_env
                     (sample_controller (Raise (RuntimeError "boom"))) tt
                     sample_queue 7 sample_request 3 world0 _
                     (RuntimeError "boom") eq_refl)) eq_refl eq_refl)
      as Hhandled.
    eexists. exact (proj2 Hhandled).
Defined.

(** C1, as it is stated, fails: [SystemExit] is not a cancellation, and when
    the reconcile function raises it the exception leaves [_handle_request]
    and the queue is not called. *)
Lemma handle_request_system_exit_escapes :
  isinstance (SystemExit "1") "CancelledError" = false ∧
  fst (sample_run (Raise (SystemExit "1")) 3) = Raise (SystemExit "1") ∧
  queue_calls (snd (sample_run (Raise (SystemExit "1")) 3)) = [].
Proof. repeat split. Qed.

(** C2, as the code has it.  When the reconcile function fails (raises an
    exception that [_handle_request] handles), or returns a result with
    [requeue] true and no [requeue_after], the jitter is drawn with
    [random.uniform(0, 1)] and added, in float arithmetic, to
    [min(2**attempt, requeue_max_backoff)]; when that sum can be formed the
    request is requeued once, after it, with the attempt it was dequeued with
    plus one; when the backoff is too large to be converted to a float the
    addition raises [OverflowError] and the queue is not called. *)
Theorem handle_request_backoff :
  ∀ (AsyncClient : Type) (env : Env) (self : Controller AsyncClient)
    (client : AsyncClient) (queue : Queue) (worker_id : nat)
    (request : Request) (attempt : Z) (w w1 : World)
    (o : Outcome (option Result)),
    let lg := _request_logger self request worker_id in
    let run := _handle_request env self client queue worker_id request attempt w in
    _reconcile_func self client request (extend w [log_handling lg attempt]) =
      (o, w1) →
    match o with
    | Raise e => is_failure e = true
    | Ok (Some r) => requeue r = true ∧ requeue_after r = None
    | _ => False
    end →
    ∃ (logged : list Event) (jitter : spec_float),
      logged = match o with Raise _ => [log_error lg] | _ => [] end ∧
      jitter = env_uniform env (history w1 ++ logged) 0 1 ∧
      match backoff_delay (_requeue_max_backoff self) attempt jitter with
      | Ok delay =>
          run = (Ok tt,
                 extend w1 (logged ++
                   [EvUniform 0 1 jitter; log_requeuing lg delay;
                    EvRequeue queue request (attempt + 1) delay])) ∧
          queue_calls (snd run) =
            queue_calls w1 ++ [EvRequeue queue request (attempt + 1) delay]
      | Raise x =>
          isinstance x "OverflowError" = true ∧ fst run = Raise x ∧
          queue_calls (snd run) = queue_calls w1
      | Pending => False
      end ∧
      (0 <= attempt →
       ∀ base : spec_float,
         float_of_int (Z.min (2 ^ attempt) (_requeue_max_backoff self)) = Ok base →
         queue_calls (snd run) =
           queue_calls w1 ++
           [EvRequeue queue request (attempt + 1) (SFadd 53 1024 base jitter)]) ∧
      (0 <= attempt →
       ∀ x : exn,
         float_of_int (Z.min (2 ^ attempt) (_requeue_max_backoff self)) = Raise x →
         fst run = Raise x ∧ queue_calls (snd run) = queue_calls w1).
Proof.
  intros AsyncClient env self client queue worker_id request attempt w w1 o
    lg run Hrec Ho.
  set (logged := match o with Raise _ => [log_error lg] | _ => [] end).
  assert (Hrun : run =
    settled env (_requeue_max_backoff self) lg queue request attempt
      (Result_new true None) (extend w1 logged)).
  { subst run logged. rewrite handle_request_run. fold lg. rewrite Hrec.
    destruct o as [[r|]|e|]; try done.
    - destruct Ho as [Hrq Hafter]. destruct r as [rq after].
      cbn in Hrq, Hafter. subst rq after. by rewrite extend_nil.
    - unfold is_failure in Ho. apply andb_prop in Ho as [Hc He].
      apply negb_true_iff in Hc. by rewrite Hc, He. }
  pose proof (settled_backoff env (_requeue_max_backoff self) lg queue request
                attempt (Result_new true None) (extend w1 logged)
                eq_refl eq_refl) as Hsettled.
  cbn zeta in Hsettled. rewrite <- Hrun in Hsettled.
  cbn [extend history] in Hsettled. fold (extend w1 logged) in Hsettled.
  exists logged, (env_uniform env (history w1 ++ logged) 0 1).
  split; [reflexivity|]. split; [reflexivity|].
  assert (Hlogged : List.filter is_queue_call logged = []).
  { subst logged. by destruct o as [[r|]|e|]. }
  assert (Hmain :
    match backoff_delay (_requeue_max_backoff self) attempt
            (env_uniform env (history w1 ++ logged) 0 1) with
    | Ok delay =>
        run = (Ok tt,
               extend w1 (logged ++
                 [EvUniform 0 1 (env_uniform env (history w1 ++ logged) 0 1);
                  log_requeuing lg delay;
                  EvRequeue queue request (attempt + 1) delay])) ∧
        queue_calls (snd run) =
          queue_calls w1 ++ [EvRequeue queue request (attempt + 1) delay]
    | Raise x =>
        isinstance x "OverflowError" = true ∧ fst run = Raise x ∧
        queue_calls (snd run) = queue_calls w1
    | Pending => False
    end).
  { destruct (backoff_delay _ _ _) as [delay|x|]; [| |done].
    - rewrite Hsettled, extend_extend. split; [reflexivity|].
      cbn [snd]. rewrite queue_calls_extend, List.filter_app, Hlogged.
      reflexivity.
    - destruct Hsettled as (Hx & Hfst & Hcalls). split; [exact Hx|].
      split; [exact Hfst|].
      by rewrite Hcalls, queue_calls_extend, Hlogged, app_nil_r. }
  split; [exact Hmain|].
  split.
  - intros Hnn base Hbase.
    rewrite (backoff_delay_int _ _ _ Hnn), Hbase in Hmain. apply Hmain.
  - intros Hnn x Hx.
    rewrite (backoff_delay_int _ _ _ Hnn), Hx in Hmain.
    destruct Hmain as (_ & Hfst & Hcalls). by split.
Qed.

Lemma handle_request_backoff_witness :
  ∃ delay : spec_float,
    queue_calls (snd (sample_run (Ok (Some (Result_new true None))) 3)) =
      [EvRequeue sample_queue sample_request 4 delay] ∧
    float_value delay = Some (17 # 2).
Proof.
  destruct (handle_request_backoff unit sample_env
              (sample_controller (Ok (Some (Result_new true None)))) tt
              sample_queue 7 sample_request 3 world0 _
              (Ok (Some (Result_new true None))) eq_refl (conj eq_refl eq_refl))
    as (logged & jitter & -> & -> & _ & Hint & _).
  eexists. split.
  - apply Hint; [discriminate | reflexivity].
  - reflexivity.
Defined.

(** C2, as it is stated, fails: with a backoff limit of [2**1024] seconds
    and a request dequeued with attempt 1024, a failed reconcile is not
    requeued: the backoff cannot be converted to a float, the addition of
    the jitter raises [OverflowError], and the queue is not called. *)
Lemma handle_request_backoff_overflows :
  let self :=
    __init__ (AsyncClient := unit) "example.org/v1" "Parent"
      (fun _ _ => of_outcome (Raise (RuntimeError "boom")))
      (mk_Kwargs None None None None (Some (2 ^ 1024))) in
  let run :=
    _handle_request sample_env self tt sample_queue 7 sample_request 1024 world0 in
  is_failure (RuntimeError "boom") = true ∧
  fst run = Raise (OverflowError "int too large to convert to float") ∧
  queue_calls (snd run) = [].
Proof. vm_compute. repeat split. Qed.

(** The float sum is rounded: with the default limit of 120 seconds and the
    largest jitter below one, the delay is 121 seconds exactly. *)
Example backoff_plus_jitter_rounds :
  let env :=
    mk_Env (fun _ _ _ => float_below_one) (fun _ => true) (fun _ => Ok tt)
      (fun _ => Ok (mk_Worker 4)) (fun _ => Ok (sample_request, 2)) in
  let run :=
    _handle_request env (sample_controller (Raise (RuntimeError "boom"))) tt
      sample_queue 7 sample_request 7 world0 in
  ∃ delay : spec_float,
    queue_calls (snd run) = [EvRequeue sample_queue sample_request 8 delay] ∧
    float_value delay = Some (121 # 1).
Proof. eexists. split; reflexivity. Qed.

(** C3, at the input on which the code differs: a result with
    [requeue_after = 0], returned for a request dequeued with attempt 3, is
    requeued with attempt 4 after the backoff of eight seconds (plus the
    jitter, one half here), not with attempt 0 after zero seconds. *)
Lemma handle_request_requeue_after_zero :
  Result_wf (Result_new false (Some 0)) ∧
  requeue_after (Result_new false (Some 0)) = Some 0 ∧
  queue_calls (snd (sample_run (Ok (Some (Result_new false (Some 0)))) 3)) =
    [EvRequeue sample_queue sample_request 4
       (S754_finite false 4785074604081152 (-49))] ∧
  float_value (S754_finite false 4785074604081152 (-49)) = Some (17 # 2).
Proof. repeat split. Qed.

(** C4.  When the reconcile function returns [None], or a result whose
    [requeue] is false, [_handle_request] logs the success and calls
    [processing_complete] for the request, once, and does not requeue; the
    two cases leave the same calls behind. *)
Theorem handle_request_complete :
  ∀ (AsyncClient : Type) (env : Env) (self : Controller AsyncClient)
    (client : AsyncClient) (queue : Queue) (worker_id : nat)
    (request : Request) (attempt : Z) (w w1 : World)
    (returned : option Result),
    let lg := _request_logger self request worker_id in
    let run := _handle_request env self client queue worker_id request attempt w in
    _reconcile_func self client request (extend w [log_handling lg attempt]) =
      (Ok returned, w1) →
    match returned with
    | None => True
    | Some r => requeue r = false
    end →
    run = (Ok tt, extend w1 [log_success lg; EvProcessingComplete queue request]) ∧
    queue_calls (snd run) =
      queue_calls w1 ++ [EvProcessingComplete queue request].
Proof.
  intros AsyncClient env self client queue worker_id request attempt w w1
    returned lg run Hrec Hret.
  assert (Hrun : run =
    (Ok tt, extend w1 [log_success lg; EvProcessingComplete queue request])).
  { subst run. rewrite handle_request_run. fold lg. rewrite Hrec.
    unfold settled. destruct returned as [r|]; cbn [default from_option id].
    - by rewrite Hret.
    - reflexivity. }
  split; [exact Hrun|].
  rewrite Hrun. unfold queue_calls, extend. cbn [snd history].
  by rewrite List.filter_app.
Qed.

Lemma handle_request_complete_witness :
  queue_calls (snd (sample_run (Ok None) 3)) =
    [EvProcessingComplete sample_queue sample_request] ∧
  sample_run (Ok (Some (Result_new false None))) 3 = sample_run (Ok None) 3.
Proof.
  pose proof (handle_request_complete unit sample_env
                (sample_controller (Ok None)) tt sample_queue 7 sample_request 3
                world0 _ None eq_refl I) as [Hnone Hcalls].
  pose proof (handle_request_complete unit sample_env
                (sample_controller (Ok (Some (Result_new false None)))) tt
                sample_queue 7 sample_request 3
                world0 _ (Some (Result_new false None)) eq_refl eq_refl)
    as [Hfalse _].
  split; [exact Hcalls|].
  exact (eq_trans Hfalse (eq_sym Hnone)).
Defined.

(** The result that [_handle_request] works with decides what it does. *)
Lemma handle_request_result {AsyncClient : Type} (env : Env)
    (self : Controller AsyncClient) client queue worker_id request attempt
    w w1 o result :
  let lg := _request_logger self request worker_id in
  _reconcile_func self client request (extend w [log_handling lg attempt]) =
    (o, w1) →
  result_of o = Some result →
  _handle_request env self client queue worker_id request attempt w =
    settled env (_requeue_max_backoff self) lg queue request attempt result
      (extend w1 match o with Raise _ => [log_error lg] | _ => [] end).
Proof.
  intros lg Hrec Hres. rewrite handle_request_run. fold lg. rewrite Hrec.
  destruct o as [returned|e|]; cbn [result_of] in Hres; [| |discriminate].
  - injection Hres as <-. by rewrite extend_nil.
  - unfold is_failure in Hres.
    destruct (isinstance e "CancelledError"); [discriminate|].
    destruct (isinstance e "Exception"); [|discriminate].
    by injection Hres as <-.
Qed.

(** C8, as the code has it.  Whenever the result has [requeue] true and the
    delay can be formed as a float, the request is requeued once: with the
    attempt it was dequeued with plus one when the result has no
    [requeue_after], and with attempt 0 (the local attempt is set to -1 and
    one is added) after [requeue_after] seconds plus the jitter when
    [requeue_after] is a number other than zero.  When the delay cannot be
    converted to a float, [OverflowError] is raised and nothing is
    requeued. *)
Theorem handle_request_requeue_attempt :
  ∀ (AsyncClient : Type) (env : Env) (self : Controller AsyncClient)
    (client : AsyncClient) (queue : Queue) (worker_id : nat)
    (request : Request) (attempt : Z) (w w1 : World)
    (o : Outcome (option Result)) (result : Result),
    let lg := _request_logger self request worker_id in
    let run := _handle_request env self client queue worker_id request attempt w in
    _reconcile_func self client request (extend w [log_handling lg attempt]) =
      (o, w1) →
    result_of o = Some result →
    requeue result = true →
    let logged := match o with Raise _ => [log_error lg] | _ => [] end in
    let jitter := env_uniform env (history w1 ++ logged) 0 1 in
    (requeue_after result = None →
     match backoff_delay (_requeue_max_backoff self) attempt jitter with
     | Ok delay =>
         fst run = Ok tt ∧
         queue_calls (snd run) =
           queue_calls w1 ++ [EvRequeue queue request (attempt + 1) delay]
     | Raise x =>
         isinstance x "OverflowError" = true ∧ fst run = Raise x ∧
         queue_calls (snd run) = queue_calls w1
     | Pending => False
     end) ∧
    (∀ d : Z, requeue_after result = Some d → d ≠ 0 →
     match py_add_float (PyInt d) jitter with
     | Ok delay =>
         fst run = Ok tt ∧
         queue_calls (snd run) =
           queue_calls w1 ++ [EvRequeue queue request 0 delay]
     | Raise x =>
         isinstance x "OverflowError" = true ∧ fst run = Raise x ∧
         queue_calls (snd run) = queue_calls w1
     | Pending => False
     end).
Proof.
  intros AsyncClient env self client queue worker_id request attempt w w1 o
    result lg run Hrec Hres Hrq logged jitter.
  subst run. rewrite (handle_request_result env _ _ _ _ _ _ _ _ _ _ Hrec Hres).
  fold lg. fold logged.
  assert (Hlogged : List.filter is_queue_call logged = []).
  { subst logged. by destruct o as [returned|e|]. }
  split.
  - intros Hafter.
    pose proof (settled_backoff env (_requeue_max_backoff self) lg queue request
                  attempt result (extend w1 logged) Hrq) as Hsettled.
    rewrite Hafter in Hsettled. specialize (Hsettled eq_refl).
    cbn zeta in Hsettled. cbn [extend history] in Hsettled.
    fold (extend w1 logged) in Hsettled. fold jitter in Hsettled.
    destruct (backoff_delay _ _ _) as [delay|x|]; [| |done].
    + rewrite Hsettled. split; [reflexivity|]. cbn [snd].
      by rewrite extend_extend, queue_calls_extend, List.filter_app, Hlogged.
    + destruct Hsettled as (Hx & Hfst & Hcalls). split; [exact Hx|].
      split; [exact Hfst|].
      by rewrite Hcalls, queue_calls_extend, Hlogged, app_nil_r.
  - intros d Hafter Hd.
    pose proof (settled_explicit env (_requeue_max_backoff self) lg queue request
                  attempt result (extend w1 logged) d Hrq Hafter Hd) as Hsettled.
    cbn zeta in Hsettled. cbn [extend history] in Hsettled.
    fold (extend w1 logged) in Hsettled. fold jitter in Hsettled.
    destruct (py_add_float _ _) as [delay|x|]; [| |done].
    + rewrite Hsettled. split; [reflexivity|]. cbn [snd].
      by rewrite extend_extend, queue_calls_extend, List.filter_app, Hlogged.
    + destruct Hsettled as (Hx & Hfst & Hcalls). split; [exact Hx|].
      split; [exact Hfst|].
      by rewrite Hcalls, queue_calls_extend, Hlogged, app_nil_r.
Qed.

Lemma handle_request_requeue_attempt_witness :
  ∃ delay : spec_float,
    queue_calls (snd (sample_run (Ok (Some (Result_new false (Some 5)))) 3)) =
      [EvRequeue sample_queue sample_request 0 delay] ∧
    float_value delay = Some (11 # 2).
Proof.
  pose proof (proj2 (handle_request_requeue_attempt unit sample_env
              (sample_controller (Ok (Some (Result_new false (Some 5))))) tt
              sample_queue 7 sample_request 3 world0 _
              (Ok (Some (Result_new false (Some 5))))
              (Result_new false (Some 5)) eq_refl eq_refl eq_refl)
              5 eq_refl ltac:(discriminate)) as Hafter.
  eexists. split; [exact (proj2 Hafter) | reflexivity].
Defined.

(** C8, as it is stated, fails: for a result with [requeue_after = 5] the
    attempt passed to [queue.requeue] is 0, and no call passes -1. *)
Lemma handle_request_requeue_after_passes_zero :
  requeue (Result_new false (Some 5)) = true ∧
  (∃ delay : spec_float,
     queue_calls (snd (sample_run (Ok (Some (Result_new false (Some 5)))) 3)) =
       [EvRequeue sample_queue sample_request 0 delay] ∧
     float_value delay = Some (11 # 2)) ∧
  ∀ delay : spec_float,
    ¬ In (EvRequeue sample_queue sample_request (-1) delay)
        (history (snd (sample_run (Ok (Some (Result_new false (Some 5)))) 3))).
Proof.
  split; [reflexivity|]. split; [eexists; split; reflexivity|].
  intros delay Hin. vm_compute in Hin.
  repeat destruct Hin as [Hin|Hin]; try discriminate Hin; exact Hin.
Qed.

(* ===================================================================== *)
(** ** The dispatch loop *)
(* ===================================================================== *)

Lemma call_run {A} (answer : list Event → A) (record : A → Event) w :
  call answer record w =
    (Ok (answer (history w)), extend w [record (answer (history w))]).
Proof. reflexivity. Qed.

Lemma await_run {A} (answer : list Event → Outcome A)
    (record : Outcome A → Event) w :
  await answer record w =
    (answer (history w), extend w [record (answer (history w))]).
Proof.
  unfold await. rewrite bind_run, call_run.
  by destruct (answer (history w)).
Qed.

Section DispatchSteps.

Variables (pool : WorkerPool) (queue : Queue).

Lemma steps_app a t1 b t2 c :
  dispatch_steps pool queue a t1 b →
  dispatch_steps pool queue b t2 c →
  dispatch_steps pool queue a (t1 ++ t2) c.
Proof.
  induction 1 as [|ph e ph' t ph'' Hstep Hsteps IH]; intros H2; simpl; [done|].
  econstructor; eauto.
Qed.



Lemma steps_stopped t c : dispatch_steps pool queue Stopped t c → t = [].
Proof. inversion 1 as [|? ? ? ? ? Hstep]; subst; [done | inversion Hstep]. Qed.



End DispatchSteps.

(** Polling: the calls of the inner loop, and how it ends. *)
Lemma wait_eligible_steps (env : Env) (pool : WorkerPool) (queue : Queue) fuel :
  ∀ w, ∃ (t : list Event) (o : Outcome unit) (ph : Phase),
    wait_eligible env fuel queue w = (o, extend w t) ∧
    dispatch_steps pool queue Polling t ph ∧
    ((o = Ok tt ∧ ph = Eligible) ∨ (o ≠ Ok tt ∧ halted ph)).
Proof.
  induction fuel as [|fuel IH]; intros w.
  - exists [], Pending, Polling. rewrite extend_nil.
    split; [reflexivity|]. split; [constructor|]. right. split; [done | by left].
  - cbn [wait_eligible]. rewrite bind_run. unfold has_eligible_request.
    rewrite call_run.
    destruct (env_has_eligible env (history w)) eqn:Hel; cbn [negb].
    + exists [EvHasEligible queue true], (Ok tt), Eligible.
      split; [reflexivity|].
      split; [repeat econstructor | by left].
    + rewrite bind_run. unfold asyncio_sleep. rewrite await_run.
      rewrite extend_extend. cbn [app].
      destruct (env_sleep env _) as [[]|e|] eqn:Hsleep.
      * destruct (IH (extend w [EvHasEligible queue false; EvSleep (1 # 10) (Ok tt)]))
          as (t & o & ph & Hrun & Hsteps & Hend).
        exists ([EvHasEligible queue false; EvSleep (1 # 10) (Ok tt)] ++ t), o, ph.
        rewrite Hrun, extend_extend. split; [reflexivity|].
        split; [|exact Hend].
        eapply steps_app; [|exact Hsteps]. repeat econstructor.
      * exists [EvHasEligible queue false; EvSleep (1 # 10) (Raise e)],
          (Raise e), Stopped.
        split; [reflexivity|]. split; [|right; split; [done | by right]].
        econstructor; [constructor|]. econstructor; [by constructor | constructor].
      * exists [EvHasEligible queue false; EvSleep (1 # 10) Pending],
          Pending, Stopped.
        split; [reflexivity|]. split; [|right; split; [done | by right]].
        econstructor; [constructor|]. econstructor; [by constructor | constructor].
Qed.

(** The calls of the dispatch loop follow the phases, from [Polling] on, and
    the loop does not return. *)
Lemma dispatch_run {AsyncClient : Type} (env : Env)
    (self : Controller AsyncClient) (client : AsyncClient) (queue : Queue) fuel :
  ∀ w, ∃ (t : list Event) (o : Outcome unit) (ph : Phase),
    _dispatch env fuel self client queue w = (o, extend w t) ∧
    dispatch_steps (_worker_pool self) queue Polling t ph ∧
    o ≠ Ok tt ∧ halted ph.
Proof.
  induction fuel as [|fuel IH]; intros w.
  - exists [], Pending, Polling. rewrite extend_nil.
    split; [reflexivity|]. split; [constructor|]. split; [done | by left].
  - cbn [_dispatch]. rewrite bind_run.
    destruct (wait_eligible_steps env (_worker_pool self) queue (S fuel) w)
      as (t0 & o0 & ph0 & Hwait & Hsteps0 & Hend0).
    rewrite Hwait.
    destruct Hend0 as [[-> ->]|[Ho0 Hph0]];
      [|exists t0, o0, ph0; destruct o0 as [[]|e|]; done].
    rewrite bind_run. unfold reserve. rewrite await_run, extend_extend.
    destruct (env_reserve env _) as [worker|e|] eqn:Hreserve.
    2,3: eexists _, _, Stopped; split; [reflexivity|];
         split; [|split; [done | by right]];
         (eapply steps_app; [exact Hsteps0|]);
         (econstructor; [by constructor | constructor]).
    rewrite bind_run. unfold dequeue. rewrite await_run, extend_extend.
    rewrite <- app_assoc. cbn [app].
    destruct (env_dequeue env _) as [[request attempt]|e|] eqn:Hdequeue.
    2,3: eexists _, _, Stopped; split; [reflexivity|];
         split; [|split; [done | by right]];
         (eapply steps_app; [exact Hsteps0|]);
         (econstructor; [constructor|]);
         (econstructor; [by constructor | constructor]).
    rewrite bind_run. unfold set_task. rewrite emit_run, extend_extend.
    rewrite <- app_assoc. cbn [app].
    destruct (IH (extend w
      (t0 ++ [EvReserve (_worker_pool self) (Ok worker);
              EvDequeue queue (Ok (request, attempt));
              EvSetTask worker (mk_Task queue (worker_id worker) request attempt)])))
      as (t & o & ph & Hrun & Hsteps & Hend).
    rewrite Hrun, extend_extend.
    eexists _, o, ph. split; [reflexivity|]. split; [|exact Hend].
    eapply steps_app; [|exact Hsteps].
    eapply steps_app; [exact Hsteps0|].
    repeat econstructor.
Qed.







(** Two iterations of the loop in the sample environment. *)
Example dispatch_two_iterations :
  let worker := mk_Worker 4 in
  let pool := _worker_pool (sample_controller (Ok None)) in
  _dispatch sample_env 2 (sample_controller (Ok None)) tt sample_queue world0 =
    (Pending,
     extend world0
       [EvHasEligible sample_queue true; EvReserve pool (Ok worker);
        EvDequeue sample_queue (Ok (sample_request, 2));
        EvSetTask worker (mk_Task sample_queue 4 sample_request 2);
        EvHasEligible sample_queue true; EvReserve pool (Ok worker);
        EvDequeue sample_queue (Ok (sample_request, 2));
        EvSetTask worker (mk_Task sample_queue 4 sample_request 2)]).
Proof. reflexivity. Qed.

(* ===================================================================== *)
(** ** More on the mappers: errors and edge cases *)
(* ===================================================================== *)

(** X1.  The primary mapper succeeds exactly on an object that has a
    metadata mapping with a [name]; otherwise it raises ([KeyError] for the
    missing key when the containers are mappings), builds no [Request] and
    leaves the world as it was. *)
Theorem primary_mapper_outcome :
  ∀ (obj : pyval) (w : World),
    match primary_mapper obj w with
    | (Ok rs, w') =>
        ∃ m name,
          metadata_of obj = Some m ∧ m !! "name" = Some name ∧
          rs = [mk_Request name (default PNone (m !! "namespace"))
                  (next_request_id w)]
    | (Raise e, w') =>
        w' = w ∧
        isinstance e "Exception" = true ∧
        (∀ m, metadata_of obj = Some m → m !! "name" = None ∧ e = KeyError "name") ∧
        (∀ d, obj = PDict d → d !! "metadata" = None → e = KeyError "metadata")
    | (Pending, _) => False
    end.
Proof.
  intros obj w. unfold primary_mapper.
  destruct obj as [| | | | |d]; try (cbn; repeat split; intros; discriminate).
  rewrite bind_run. unfold getitem at 1.
  destruct (d !! "metadata") as [md|] eqn:Hmd.
  2: { cbn. rewrite Hmd. repeat split; intros; try discriminate; congruence. }
  unfold ret at 1. rewrite bind_run.
  destruct md as [| | | | |m];
    try (cbn; rewrite Hmd; repeat split; intros; try discriminate; congruence).
  unfold getitem at 1.
  destruct (m !! "name") as [name|] eqn:Hname.
  - unfold ret at 1. rewrite bind_run. unfold getitem at 1. rewrite Hmd.
    cbn. exists m, name. rewrite Hmd. done.
  - cbn. rewrite Hmd. repeat split; intros; try congruence.
Qed.

(** The comprehension of [owns] after a prefix of well-formed references:
    the requests of the prefix, then what the rest of the list gives. *)
Lemma owns_comprehension_app_wf api_version kind controller_only obj m pre rest w :
  metadata_of obj = Some m →
  forallb owner_reference_wf pre = true →
  let selected :=
    List.filter (owner_reference_matches api_version kind controller_only) pre in
  owns_comprehension api_version kind controller_only obj (pre ++ rest) w =
    match owns_comprehension api_version kind controller_only obj rest
            (mk_World (history w) (next_request_id w + length selected)) with
    | (Ok rs, w') =>
        (Ok (requests_for (List.map (fun ref => ref_field ref "name") selected)
               (default PNone (m !! "namespace")) (next_request_id w) ++ rs), w')
    | (Raise e, w') => (Raise e, w')
    | (Pending, w') => (Pending, w')
    end.
Proof.
  intros Hm. revert w.
  induction pre as [|ref pre IH]; intros w Hwf; cbn zeta; simpl in *.
  - rewrite Nat.add_0_r. destruct w as [h n]; cbn.
    by destruct (owns_comprehension _ _ _ _ rest _) as [[rs|e|] w'].
  - apply andb_prop in Hwf as [Href Hrefs].
    rewrite bind_run, (owns_condition_wf _ _ _ _ _ Href).
    destruct (owner_reference_matches _ _ _ ref) eqn:Hsel; simpl.
    + assert (Hname : getitem ref "name" w = (Ok (ref_field ref "name"), w)).
      { unfold owner_reference_wf in Href. destruct ref as [| | | | |r]; try done.
        repeat (apply andb_prop in Href as [Href ?]).
        match goal with
        | H : bool_decide (is_Some (r !! "name")) = true |- _ =>
            apply bool_decide_eq_true_1 in H as [x Hx]
        end.
        unfold getitem, ref_field. by rewrite Hx. }
      rewrite bind_run, Hname.
      rewrite bind_run, (getitem_metadata _ _ _ Hm).
      rewrite bind_run. unfold dict_get at 1, ret at 1.
      rewrite bind_run. unfold Request_new at 1.
      rewrite bind_run, (IH _ Hrefs). cbn [history next_request_id].
      replace (S (next_request_id w) +
               length (List.filter
                 (owner_reference_matches api_version kind controller_only) pre))%nat
        with (next_request_id w +
              S (length (List.filter
                 (owner_reference_matches api_version kind controller_only) pre)))%nat
        by lia.
      by destruct (owns_comprehension _ _ _ _ rest _) as [[rs|e|] w'].
    + by rewrite (IH _ Hrefs).
Qed.

(** The mapper of [owns] on an object with a list of owner references. *)
Lemma owns_mapper_list api_version kind controller_only obj m refs w :
  metadata_of obj = Some m →
  m !! "ownerReferences" = Some (PList refs) →
  owns_mapper api_version kind controller_only obj w =
  owns_comprehension api_version kind controller_only obj refs w.
Proof.
  intros Hm Hrefs. unfold owns_mapper.
  rewrite bind_run, (getitem_metadata _ _ _ Hm).
  rewrite bind_run. unfold dict_get at 1. rewrite Hrefs.
  reflexivity.
Qed.

(** X2.  One malformed owner reference fails the whole object: after any
    number of well-formed references, a reference without [apiVersion], a
    reference to the controller's API version without [kind], or a selected
    reference without [name] makes the mapper raise the [KeyError] of that
    key, and the requests of the references before it are not returned
    (their ids are used up). *)
Theorem owns_mapper_malformed_reference :
  ∀ (api_version kind : string) (controller_only : bool) (obj : pyval)
    (m r : gmap string pyval) (pre post : list pyval) (w : World),
    metadata_of obj = Some m →
    m !! "ownerReferences" = Some (PList (pre ++ PDict r :: post)) →
    forallb owner_reference_wf pre = true →
    let w' :=
      mk_World (history w)
        (next_request_id w +
         length (List.filter
           (owner_reference_matches api_version kind controller_only) pre)) in
    let run := owns_mapper api_version kind controller_only obj w in
    (r !! "apiVersion" = None → run = (Raise (KeyError "apiVersion"), w')) ∧
    (r !! "apiVersion" = Some (PStr api_version) → r !! "kind" = None →
     run = (Raise (KeyError "kind"), w')) ∧
    (r !! "apiVersion" = Some (PStr api_version) →
     r !! "kind" = Some (PStr kind) →
     controller_only = false ∨ r !! "controller" = Some (PBool true) →
     r !! "name" = None →
     run = (Raise (KeyError "name"), w')).
Proof.
  intros api_version kind controller_only obj m r pre post w Hm Hrefs Hwf w' run.
  subst run. rewrite (owns_mapper_list _ _ _ _ _ _ _ Hm Hrefs).
  rewrite (owns_comprehension_app_wf _ _ _ _ _ _ _ _ Hm Hwf). cbn zeta. fold w'.
  cbn [owns_comprehension].
  unfold owns_condition, bind, getitem, dict_get, ret.
  split; [by intros ->|].
  split.
  - intros -> Hk. cbn [py_eq_str]. rewrite String.eqb_refl. cbn [negb].
    by rewrite Hk.
  - intros -> Hk Hc Hname. rewrite Hk. cbn [py_eq_str].
    rewrite !String.eqb_refl. cbn [negb].
    destruct Hc as [-> | Hc]; cbn [negb].
    + by rewrite Hname.
    + destruct controller_only; cbn [negb]; rewrite ?Hc; cbn; by rewrite Hname.
Qed.

Lemma owns_mapper_malformed_reference_witness :
  let nameless : gmap string pyval :=
    list_to_map [("apiVersion", PStr "example.org/v1"); ("kind", PStr "Parent");
                 ("controller", PBool true)] in
  owns_mapper "example.org/v1" "Parent" true
    (sample_object "child-7"
       (Some [sample_reference "a" (Some true); PDict nameless;
              sample_reference "c" (Some true)])) world0 =
  (Raise (KeyError "name"), mk_World [] 1).
Proof.
  intros nameless.
  refine (proj2 (proj2 (owns_mapper_malformed_reference
            "example.org/v1" "Parent" true _
            (sample_metadata "child-7"
               (Some [sample_reference "a" (Some true); PDict nameless;
                      sample_reference "c" (Some true)]))
            nameless [sample_reference "a" (Some true)]
            [sample_reference "c" (Some true)] world0 _ _ _)) _ _ _ _);
    try reflexivity.
  right; reflexivity.
Defined.

(** X3.  A reference to another resource is passed over whatever else it
    holds or lacks: when its [apiVersion] differs from the controller's, or
    its [kind] does, the keys after the differing one are not read, so that
    the comprehension gives what it gives without that reference. *)
Theorem owns_comprehension_skips_foreign_reference :
  ∀ (api_version kind : string) (controller_only : bool) (obj : pyval)
    (r : gmap string pyval) (pre post : list pyval) (a : pyval),
    r !! "apiVersion" = Some a →
    py_eq_str a api_version = false ∨
    (∃ k, r !! "kind" = Some k ∧ py_eq_str k kind = false) →
    (∀ w, owns_condition api_version kind controller_only (PDict r) w =
            (Ok false, w)) ∧
    ∀ w,
      owns_comprehension api_version kind controller_only obj
        (pre ++ PDict r :: post) w =
      owns_comprehension api_version kind controller_only obj (pre ++ post) w.
Proof.
  intros api_version kind controller_only obj r pre post a Ha Hforeign.
  assert (Hcond : ∀ w,
    owns_condition api_version kind controller_only (PDict r) w = (Ok false, w)).
  { intros w. unfold owns_condition, bind, getitem, ret. rewrite Ha.
    destruct (py_eq_str a api_version) eqn:Heq; cbn [negb]; [|done].
    destruct Hforeign as [|(k & Hk & Hne)]; [done|].
    by rewrite Hk, Hne. }
  split; [exact Hcond|]. by apply owns_comprehension_skip.
Qed.

Lemma owns_comprehension_skips_foreign_reference_witness :
  let foreign : gmap string pyval := list_to_map [("apiVersion", PStr "apps/v1")] in
  let child := sample_object "child-7" None in
  owns_comprehension "example.org/v1" "Parent" true child
    [sample_reference "a" (Some true); PDict foreign] world0 =
  owns_comprehension "example.org/v1" "Parent" true child
    [sample_reference "a" (Some true)] world0.
Proof.
  intros foreign child.
  refine (proj2 (owns_comprehension_skips_foreign_reference
            "example.org/v1" "Parent" true child foreign
            [sample_reference "a" (Some true)] [] (PStr "apps/v1") _ _) world0).
  - reflexivity.
  - left; reflexivity.
Defined.

Lemma filter_names_sublist {A B} (f : A → B) (P Q : A → bool) (l : list A) :
  (∀ x, P x = true → Q x = true) →
  sublist (List.map f (List.filter P l)) (List.map f (List.filter Q l)).
Proof.
  intros HPQ. induction l as [|x l IH]; simpl; [constructor|].
  destruct (P x) eqn:HP.
  - rewrite (HPQ _ HP). simpl. by constructor.
  - destruct (Q x); simpl; [by constructor | done].
Qed.

(** X4.  [controller_only] only narrows: on an object with well-formed
    owner references, the names requested with [controller_only=True] are a
    subsequence of those requested with [controller_only=False]. *)
Theorem owns_mapper_controller_only_narrows :
  ∀ (api_version kind : string) (obj : pyval) (m : gmap string pyval)
    (refs : list pyval) (w : World),
    metadata_of obj = Some m →
    m !! "ownerReferences" = Some (PList refs) →
    forallb owner_reference_wf refs = true →
    ∃ (only all : list Request) (w1 w2 : World),
      owns_mapper api_version kind true obj w = (Ok only, w1) ∧
      owns_mapper api_version kind false obj w = (Ok all, w2) ∧
      sublist (List.map req_name only) (List.map req_name all) ∧
      (length only ≤ length all ≤ length refs)%nat.
Proof.
  intros api_version kind obj m refs w Hm Hrefs Hwf.
  rewrite !(owns_mapper_list _ _ _ _ _ _ _ Hm Hrefs).
  rewrite !(owns_comprehension_wf _ _ _ _ _ _ _ Hm Hwf). cbn zeta.
  eexists _, _, _, _. split; [reflexivity|]. split; [reflexivity|].
  rewrite !requests_for_names, !requests_for_length, !length_map.
  assert (Hsub := filter_names_sublist (fun ref => ref_field ref "name")
    (owner_reference_matches api_version kind true)
    (owner_reference_matches api_version kind false) refs).
  split.
  - apply Hsub. intros x. unfold owner_reference_matches.
    intros H. apply andb_prop in H as [H _]. by rewrite H.
  - split.
    + assert (Hlen := filter_names_sublist (fun ref => ref)
        (owner_reference_matches api_version kind true)
        (owner_reference_matches api_version kind false) refs).
      rewrite !List.map_id in Hlen. apply sublist_length, Hlen.
      intros x. unfold owner_reference_matches.
      intros H. apply andb_prop in H as [H _]. by rewrite H.
    + apply List.filter_length_le.
Qed.

Lemma owns_mapper_controller_only_narrows_witness :
  ∃ (only all : list Request) (w1 w2 : World),
    let child :=
      sample_object "child-7"
        (Some [sample_reference "a" None; sample_reference "b" (Some true)]) in
    owns_mapper "example.org/v1" "Parent" true child world0 = (Ok only, w1) ∧
    owns_mapper "example.org/v1" "Parent" false child world0 = (Ok all, w2) ∧
    sublist (List.map req_name only) (List.map req_name all).
Proof.
  destruct (owns_mapper_controller_only_narrows "example.org/v1" "Parent"
              (sample_object "child-7"
                 (Some [sample_reference "a" None; sample_reference "b" (Some true)]))
              (sample_metadata "child-7"
                 (Some [sample_reference "a" None; sample_reference "b" (Some true)]))
              [sample_reference "a" None; sample_reference "b" (Some true)]
              world0 eq_refl eq_refl eq_refl)
    as (only & all & w1 & w2 & H1 & H2 & Hsub & _).
  exists only, all, w1, w2. cbn zeta. split; [exact H1|]. split; [exact H2 | exact Hsub].
Defined.

(** X5.  The default of [.get("ownerReferences", [])] serves an absent key
    only.  When the key is present with a value that is not a list (a
    [null], a number, a boolean, a non-empty string or mapping), the mapper
    raises [TypeError] and leaves the world as it was. *)
Theorem owns_mapper_owner_references_not_a_list :
  ∀ (api_version kind : string) (controller_only : bool) (obj : pyval)
    (m : gmap string pyval) (v : pyval) (w : World),
    metadata_of obj = Some m →
    m !! "ownerReferences" = Some v →
    (∀ l, v ≠ PList l) → v ≠ PStr "" → v ≠ PDict ∅ →
    ∃ msg : string,
      owns_mapper api_version kind controller_only obj w =
        (Raise (TypeError msg), w).
Proof.
  intros api_version kind controller_only obj m v w Hm Hv Hlist Hstr Hdict.
  unfold owns_mapper.
  rewrite bind_run, (getitem_metadata _ _ _ Hm).
  rewrite bind_run. unfold dict_get at 1. rewrite Hv.
  cbn [default from_option id]. unfold ret at 1. rewrite bind_run.
  destruct v as [|b|z|s|l|d]; try (by eexists).
  - destruct s as [|c s]; [done|]. cbn. by eexists.
  - by destruct (Hlist l).
  - cbn [py_iter]. unfold ret at 1.
    destruct (map_to_list d) as [|[k x] kvs] eqn:Hkvs.
    + apply map_to_list_empty_iff in Hkvs. by subst d.
    + cbn. by eexists.
Qed.

Lemma owns_mapper_owner_references_not_a_list_witness :
  let m : gmap string pyval :=
    list_to_map [("name", PStr "child-7"); ("ownerReferences", PNone)] in
  ∃ msg : string,
    owns_mapper "example.org/v1" "Parent" true
      (PDict (list_to_map [("metadata", PDict m)])) world0 =
      (Raise (TypeError msg), world0).
Proof.
  intros m.
  apply (owns_mapper_owner_references_not_a_list "example.org/v1" "Parent" true
           (PDict (list_to_map [("metadata", PDict m)])) m PNone world0);
    try reflexivity; discriminate.
Defined.

(* ===================================================================== *)
(** ** The builder methods *)
(* ===================================================================== *)

(** A chain of builder calls appends one watch per call, in order, and
    changes nothing else. *)
Lemma build_run {AsyncClient : Type} (self : Controller AsyncClient)
    (calls : list BuilderCall) :
  let built := build self calls in
  _api_version built = _api_version self ∧
  _kind built = _kind self ∧
  _namespace built = _namespace self ∧
  _worker_pool built = _worker_pool self ∧
  _requeue_max_backoff built = _requeue_max_backoff self ∧
  _reconcile_func built = _reconcile_func self ∧
  ∃ added : list Watch,
    _watches built = _watches self ++ added ∧
    List.map (fun x => (watch_api_version x, watch_kind x)) added =
      List.map call_resource calls ∧
    Forall (fun x =>
      watch_namespace x = _namespace self ∨
      namespaced (watch_namespace x)) added.
Proof.
  revert self. induction calls as [|c calls IH]; intros self; cbn zeta.
  - repeat split. exists []. by rewrite app_nil_r.
  - unfold build. cbn [fold_left]. fold (build (apply_call self c) calls).
    destruct (IH (apply_call self c))
      as (Ha & Hk & Hn & Hp & Hb & Hr & added & Hw & Hres & Hns).
    rewrite Ha, Hk, Hn, Hp, Hb, Hr.
    destruct c as [api_version kind controller_only
                  |api_version kind mapper labels namespace];
      cbn in *; repeat (split; [reflexivity|]);
      rewrite Hw, <- app_assoc; eexists; (split; [reflexivity|]);
      (split; [cbn; by rewrite Hres|]);
      constructor; [by left | done | | done].
    cbn. destruct namespace as [s|]; [|by left].
    cbn. destruct (String.eqb_spec s ""); [by left|].
    right. by exists s.
Qed.

(** X6.  Builder calls compose: after any chain of [owns] and [watches]
    calls on a new controller, its watches are the primary watch followed by
    one watch per call, in the order of the calls and for the resource of
    each call; the controller's own resource, namespace, worker pool, backoff
    limit and reconcile function are those of the constructor. *)
Theorem builder_calls_append_watches :
  ∀ (AsyncClient : Type) (api_version kind : string)
    (reconcile_func : ReconcileFunc AsyncClient) (kw : Kwargs)
    (calls : list BuilderCall),
    let new := __init__ api_version kind reconcile_func kw in
    let built := build new calls in
    List.map (fun x => (watch_api_version x, watch_kind x)) (_watches built) =
      (api_version, kind) :: List.map call_resource calls ∧
    (∃ added, _watches built = _watches new ++ added) ∧
    length (_watches built) = S (length calls) ∧
    _api_version built = api_version ∧
    _kind built = kind ∧
    _namespace built = kw_namespace kw ∧
    _worker_pool built = _worker_pool new ∧
    _requeue_max_backoff built = _requeue_max_backoff new ∧
    _reconcile_func built = reconcile_func.
Proof.
  intros AsyncClient api_version kind reconcile_func kw calls new built.
  destruct (build_run new calls)
    as (Ha & Hk & Hn & Hp & Hb & Hr & added & Hw & Hres & _).
  fold built in Ha, Hk, Hn, Hp, Hb, Hr, Hw.
  assert (Hmap :
    List.map (fun x => (watch_api_version x, watch_kind x)) (_watches built) =
    (api_version, kind) :: List.map call_resource calls).
  { rewrite Hw. subst new. cbn. by rewrite Hres. }
  split; [exact Hmap|]. split; [by exists added|].
  split.
  { apply (f_equal (@length _)) in Hmap. rewrite length_map in Hmap.
    rewrite Hmap. cbn. by rewrite length_map. }
  by rewrite Ha, Hk, Hn, Hp, Hb, Hr.
Qed.

(** X7.  A controller restricted to a namespace never opens a cluster-wide
    watch: when the constructor is given a non-empty namespace, every watch
    of the controller is restricted to a non-empty namespace, after any
    chain of builder calls ([owns] passes the controller's namespace on;
    [watches] falls back on it when it is given none, or an empty one). *)
Theorem namespaced_controller_watches :
  ∀ (AsyncClient : Type) (api_version kind : string)
    (reconcile_func : ReconcileFunc AsyncClient) (kw : Kwargs)
    (calls : list BuilderCall),
    namespaced (kw_namespace kw) →
    Forall (fun x => namespaced (watch_namespace x))
      (_watches (build (__init__ api_version kind reconcile_func kw) calls)).
Proof.
  intros AsyncClient api_version kind reconcile_func kw calls Hns.
  destruct (build_run (__init__ api_version kind reconcile_func kw) calls)
    as (_ & _ & _ & _ & _ & _ & added & Hw & _ & Hadded).
  rewrite Hw. apply Forall_app. split.
  - cbn. constructor; [exact Hns | constructor].
  - eapply Forall_impl; [exact Hadded|].
    intros x [Hx|Hx]; [|exact Hx]. cbn in Hx. by rewrite Hx.
Qed.

Lemma namespaced_controller_watches_witness :
  Forall (fun x => namespaced (watch_namespace x))
    (_watches
       (build
          (__init__ (AsyncClient := unit) "example.org/v1" "Parent"
             (fun _ _ => ret None)
             (mk_Kwargs None (Some "tenant") None None None))
          [CallOwns "v1" "ConfigMap" None;
           CallWatches "v1" "Secret" primary_mapper None (Some "");
           CallWatches "v1" "Event" primary_mapper None (Some "other")])).
Proof.
  apply (namespaced_controller_watches unit).
  exists "tenant". split; [reflexivity | discriminate].
Defined.

(* ===================================================================== *)
(** ** More on handling a request *)
(* ===================================================================== *)

(** Settling a result that asks for a requeue: one requeue, or the
    [OverflowError] of the float addition and no call. *)
Lemma settled_requeue env max_backoff lg queue request attempt result w1 :
  requeue result = true →
  let run := settled env max_backoff lg queue request attempt result w1 in
  (∃ (a : Z) (delay : spec_float),
     fst run = Ok tt ∧
     queue_calls (snd run) = queue_calls w1 ++ [EvRequeue queue request a delay] ∧
     (a = attempt + 1 ∨ a = 0) ∧
     (a = 0 → attempt = -1 ∨ ∃ d, requeue_after result = Some d ∧ d ≠ 0)) ∨
  (∃ x : exn,
     isinstance x "OverflowError" = true ∧ fst run = Raise x ∧
     queue_calls (snd run) = queue_calls w1).
Proof.
  intros Hrq run.
  assert (Hbackoff : truthy_opt_int (requeue_after result) = false →
    (∃ (a : Z) (delay : spec_float),
       fst run = Ok tt ∧
       queue_calls (snd run) = queue_calls w1 ++ [EvRequeue queue request a delay] ∧
       (a = attempt + 1 ∨ a = 0) ∧
       (a = 0 → attempt = -1 ∨ ∃ d, requeue_after result = Some d ∧ d ≠ 0)) ∨
    (∃ x : exn,
       isinstance x "OverflowError" = true ∧ fst run = Raise x ∧
       queue_calls (snd run) = queue_calls w1)).
  { intros Hexplicit.
    pose proof (settled_backoff env max_backoff lg queue request attempt result
                  w1 Hrq Hexplicit) as Hsettled.
    cbn zeta in Hsettled. fold run in Hsettled.
    destruct (backoff_delay _ _ _) as [delay|x|]; [| |done].
    - left. exists (attempt + 1), delay. rewrite Hsettled. cbn [fst snd].
      rewrite queue_calls_extend. split; [done|]. split; [done|].
      split; [by left|]. intros. left. lia.
    - right. by exists x. }
  destruct (requeue_after result) as [d|] eqn:Hafter; [|by apply Hbackoff].
  destruct (Z.eq_dec d 0) as [->|Hd]; [by apply Hbackoff|].
  pose proof (settled_explicit env max_backoff lg queue request attempt result
                w1 d Hrq Hafter Hd) as Hsettled.
  cbn zeta in Hsettled. fold run in Hsettled.
  destruct (py_add_float _ _) as [delay|x|]; [| |done].
  - left. exists 0, delay. rewrite Hsettled. cbn [fst snd].
    rewrite queue_calls_extend. split; [done|]. split; [done|].
    split; [by right|]. intros _. right. by exists d.
  - right. by exists x.
Qed.

(** X8.  [_handle_request] settles the request with the queue exactly once
    when it returns, and not at all otherwise.  After the reconcile function
    has returned, or raised an [Exception] that is not a cancellation: a
    result with [requeue] false gives one [processing_complete] and a normal
    return; a result with [requeue] true gives one [requeue] and a normal
    return, or, when its delay cannot be formed as a float, an
    [OverflowError] and no call.  When the reconcile function raises
    anything else or does not complete, [_handle_request] adds no call at
    all and ends the same way. *)
Theorem handle_request_settles_once :
  ∀ (AsyncClient : Type) (env : Env) (self : Controller AsyncClient)
    (client : AsyncClient) (queue : Queue) (worker_id : nat)
    (request : Request) (attempt : Z) (w : World),
    let lg := _request_logger self request worker_id in
    let run := _handle_request env self client queue worker_id request attempt w in
    let '(o, w1) :=
      _reconcile_func self client request (extend w [log_handling lg attempt]) in
    match result_of o with
    | Some result =>
        if requeue result
        then
          (fst run = Ok tt ∧
           ∃ a delay,
             queue_calls (snd run) =
               queue_calls w1 ++ [EvRequeue queue request a delay]) ∨
          (∃ x : exn,
             isinstance x "OverflowError" = true ∧ fst run = Raise x ∧
             queue_calls (snd run) = queue_calls w1)
        else
          fst run = Ok tt ∧
          queue_calls (snd run) =
            queue_calls w1 ++ [EvProcessingComplete queue request]
    | None =>
        snd run = w1 ∧
        fst run = match o with Raise e => Raise e | _ => Pending end
    end.
Proof.
  intros AsyncClient env self client queue worker_id request attempt w lg run.
  destruct (_reconcile_func self client request _) as [o w1] eqn:Hrec.
  destruct (result_of o) as [result|] eqn:Hres.
  - subst run.
    rewrite (handle_request_result env _ _ _ _ _ _ _ _ _ _ Hrec Hres). fold lg.
    set (logged := match o with Raise _ => [log_error lg] | _ => [] end).
    assert (Hlogged : queue_calls (extend w1 logged) = queue_calls w1).
    { rewrite queue_calls_extend. subst logged.
      destruct o as [returned|e|]; by rewrite app_nil_r. }
    destruct (requeue result) eqn:Hrq.
    + destruct (settled_requeue env (_requeue_max_backoff self) lg queue request
                  attempt result (extend w1 logged) Hrq)
        as [(a & delay & Hfst & Hcalls & _)|(x & Hx & Hfst & Hcalls)].
      * left. split; [exact Hfst|]. exists a, delay. by rewrite Hcalls, Hlogged.
      * right. exists x. by rewrite Hcalls, Hlogged.
    + unfold settled. rewrite Hrq. cbn [fst snd]. split; [reflexivity|].
      by rewrite queue_calls_extend, Hlogged.
  - subst run. rewrite handle_request_run. fold lg. rewrite Hrec.
    destruct o as [returned|e|]; cbn [result_of] in Hres; [discriminate| |done].
    unfold is_failure in Hres.
    destruct (isinstance e "CancelledError"); [done|].
    destruct (isinstance e "Exception"); [discriminate | done].
Qed.

(** X10.  Whenever [_handle_request] requeues, the attempt handed back to
    the queue is the dequeued attempt plus one, or 0 (a zero [requeue_after]
    included): it is never negative for a request dequeued with a
    non-negative attempt, and it is 0 only after a non-zero [requeue_after]
    (or a dequeued attempt of -1).  A result that asks for a requeue is
    requeued in this way unless the delay cannot be formed as a float, in
    which case [OverflowError] is raised and the queue is not called. *)
Theorem handle_request_requeued_attempt_not_negative :
  ∀ (AsyncClient : Type) (env : Env) (self : Controller AsyncClient)
    (client : AsyncClient) (queue : Queue) (worker_id : nat)
    (request : Request) (attempt : Z) (w w1 : World)
    (o : Outcome (option Result)) (result : Result),
    let lg := _request_logger self request worker_id in
    let run := _handle_request env self client queue worker_id request attempt w in
    _reconcile_func self client request (extend w [log_handling lg attempt]) =
      (o, w1) →
    result_of o = Some result →
    requeue result = true →
    (∃ (a : Z) (delay : spec_float),
       fst run = Ok tt ∧
       queue_calls (snd run) = queue_calls w1 ++ [EvRequeue queue request a delay] ∧
       (a = attempt + 1 ∨ a = 0) ∧
       (0 <= attempt → 0 <= a) ∧
       (a = 0 → attempt = -1 ∨ ∃ d, requeue_after result = Some d ∧ d ≠ 0)) ∨
    (∃ x : exn,
       isinstance x "OverflowError" = true ∧ fst run = Raise x ∧
       queue_calls (snd run) = queue_calls w1).
Proof.
  intros AsyncClient env self client queue worker_id request attempt w w1 o
    result lg run Hrec Hres Hrq.
  subst run. rewrite (handle_request_result env _ _ _ _ _ _ _ _ _ _ Hrec Hres).
  fold lg.
  set (logged := match o with Raise _ => [log_error lg] | _ => [] end).
  assert (Hlogged : queue_calls (extend w1 logged) = queue_calls w1).
  { rewrite queue_calls_extend. subst logged.
    destruct o as [returned|e|]; by rewrite app_nil_r. }
  destruct (settled_requeue env (_requeue_max_backoff self) lg queue request
              attempt result (extend w1 logged) Hrq)
    as [(a & delay & Hfst & Hcalls & Ha & Hzero)|(x & Hx & Hfst & Hcalls)].
  - left. exists a, delay. split; [exact Hfst|].
    split; [by rewrite Hcalls, Hlogged|]. split; [exact Ha|].
    split; [destruct Ha; lia | exact Hzero].
  - right. exists x. by rewrite Hcalls, Hlogged.
Qed.

Lemma handle_request_requeued_attempt_not_negative_witness :
  ∃ (a : Z) (delay : spec_float),
    queue_calls (snd (sample_run (Ok (Some (Result_new false (Some 0)))) 3)) =
      [EvRequeue sample_queue sample_request a delay] ∧
    0 <= a.
Proof.
  destruct (handle_request_requeued_attempt_not_negative unit sample_env
              (sample_controller (Ok (Some (Result_new false (Some 0))))) tt
              sample_queue 7 sample_request 3 world0 _
              (Ok (Some (Result_new false (Some 0))))
              (Result_new false (Some 0)) eq_refl eq_refl eq_refl)
    as [(a & delay & _ & Hcalls & _ & Hnn & _)|(x & _ & Hfst & _)].
  - exists a, delay. split; [exact Hcalls|]. apply Hnn. discriminate.
  - discriminate Hfst.
Defined.

(* ===================================================================== *)
(** ** More on the dispatch loop: what it conserves *)
(* ===================================================================== *)

Section DispatchCounts.

Variables (pool : WorkerPool) (queue : Queue).

Lemma steps_polls_reserves a t c :
  dispatch_steps pool queue a t c →
  (positive_polls t + phase_eligible a = reserve_calls t + phase_eligible c)%nat.
Proof.
  induction 1 as [|ph e ph' t ph'' Hstep Hsteps IH]; [done|].
  unfold positive_polls, reserve_calls in *.
  inversion Hstep; subst; cbn in *; lia.
Qed.

Lemma steps_pairs a t c :
  dispatch_steps pool queue a t c →
  phase_pair a ++ dequeued_pairs t = handed_pairs t ++ phase_pair c.
Proof.
  induction 1 as [|ph e ph' t ph'' Hstep Hsteps IH]; [by rewrite app_nil_r|].
  unfold dequeued_pairs, handed_pairs in *.
  inversion Hstep; subst; cbn in *; try done.
  - match goal with H : ∀ x, _ ≠ Ok x |- _ => rename H into Hstop end.
    destruct o as [x|x|]; [by destruct (Hstop x) | done | done].
  - by rewrite <- IH.
Qed.

Lemma steps_workers a t c :
  dispatch_steps pool queue a t c →
  halted c →
  ∃ leftover : list Worker,
    phase_worker a ++ reserved_workers t = task_workers t ++ leftover ∧
    (length leftover ≤ 1)%nat ∧
    (leftover ≠ [] ↔ ∃ e, last t = Some e ∧ is_failed_dequeue e = true).
Proof.
  induction 1 as [c|ph e ph' t ph'' Hstep Hsteps IH]; intros Hc.
  - exists []. destruct Hc as [-> | ->]; cbn; repeat split;
      try (lia || done); by intros (e & [=] & _).
  - destruct (IH Hc) as (leftover & Heq & Hlen & Hlast).
    unfold reserved_workers, task_workers in *.
    assert (Hkept : is_failed_dequeue e = false →
      (leftover ≠ [] ↔ ∃ e', last (e :: t) = Some e' ∧ is_failed_dequeue e' = true)).
    { intros He. rewrite Hlast, last_cons. split.
      - intros (e' & -> & Hfailed). by exists e'.
      - intros (e' & He' & Hfailed). destruct (last t) as [e''|] eqn:Ht.
        + exists e''. by injection He' as ->.
        + injection He' as ->. congruence. }
    assert (Hend : ∀ workers : list Worker,
      (workers ≠ [] ↔ is_failed_dequeue e = true) →
      (workers ≠ [] ↔ ∃ e', last [e] = Some e' ∧ is_failed_dequeue e' = true)).
    { intros workers ->. cbn. split; [by exists e|]. by intros (e' & [= <-] & ?). }
    inversion Hstep; subst; cbn in *.
    1-3, 5, 7: exists leftover; (split; [done|]); (split; [done|]);
      by apply Hkept.
    + apply steps_stopped in Hsteps as ->. cbn in *.
      exists []. destruct o as [[]|x|]; cbn; (split; [done|]); (split; [lia|]);
        by apply Hend.
    + match goal with H : ∀ w, _ ≠ Ok w |- _ => rename H into Hstop end.
      apply steps_stopped in Hsteps as ->. cbn in *.
      exists []. destruct o as [x|x|]; [by destruct (Hstop x) | |];
        cbn; (split; [done|]); (split; [lia|]); by apply Hend.
    + match goal with H : ∀ x, _ ≠ Ok x |- _ => rename H into Hstop end.
      apply steps_stopped in Hsteps as ->. cbn in *.
      exists [worker]. split; [done|]. split; [done|]. apply Hend.
      destruct o as [x|x|]; [by destruct (Hstop x) | done | done].
    + exists leftover. cbn in Heq. rewrite <- Heq.
      split; [done|]. split; [done|]. by apply Hkept.
Qed.

End DispatchCounts.

(** X11.  A worker is reserved once for each positive answer of
    [has_eligible_request] and never otherwise: in every run of the dispatch
    loop the number of [reserve] calls equals the number of positive polls. *)
Theorem dispatch_reserves_once_per_positive_poll :
  ∀ (AsyncClient : Type) (env : Env) (self : Controller AsyncClient)
    (client : AsyncClient) (queue : Queue) (fuel : nat) (w : World),
    ∃ (t : list Event) (o : Outcome unit),
      _dispatch env fuel self client queue w = (o, extend w t) ∧
      reserve_calls t = positive_polls t.
Proof.
  intros AsyncClient env self client queue fuel w.
  destruct (dispatch_run env self client queue fuel w)
    as (t & o & ph & Hrun & Hsteps & _ & Hph).
  exists t, o. split; [exact Hrun|].
  apply steps_polls_reserves in Hsteps. cbn in Hsteps.
  destruct Hph as [-> | ->]; cbn in Hsteps; lia.
Qed.

(** X12.  The dispatcher neither drops, duplicates nor reorders work: in
    every run of the loop, the requests handed to workers, with their
    attempts, are exactly the requests that [dequeue] returned, in the same
    order. *)
Theorem dispatch_hands_over_what_it_dequeues :
  ∀ (AsyncClient : Type) (env : Env) (self : Controller AsyncClient)
    (client : AsyncClient) (queue : Queue) (fuel : nat) (w : World),
    ∃ (t : list Event) (o : Outcome unit),
      _dispatch env fuel self client queue w = (o, extend w t) ∧
      handed_pairs t = dequeued_pairs t.
Proof.
  intros AsyncClient env self client queue fuel w.
  destruct (dispatch_run env self client queue fuel w)
    as (t & o & ph & Hrun & Hsteps & _ & Hph).
  exists t, o. split; [exact Hrun|].
  apply steps_pairs in Hsteps. cbn in Hsteps.
  destruct Hph as [-> | ->]; cbn in Hsteps; by rewrite app_nil_r in Hsteps.
Qed.

(** X13.  Reserved workers get their task, but for one case: in every run
    of the loop the workers given a task are the reserved workers, in order,
    except that the last reserved worker is left without a task exactly when
    the run ends with a [dequeue] that does not complete (it raises, as on
    cancellation, or stays pending): then, and only then, one reserved
    worker has no task, and the loop does not release it. *)
Theorem dispatch_reserved_workers_get_tasks :
  ∀ (AsyncClient : Type) (env : Env) (self : Controller AsyncClient)
    (client : AsyncClient) (queue : Queue) (fuel : nat) (w : World),
    ∃ (t : list Event) (o : Outcome unit) (leftover : list Worker),
      _dispatch env fuel self client queue w = (o, extend w t) ∧
      reserved_workers t = task_workers t ++ leftover ∧
      (length leftover ≤ 1)%nat ∧
      (leftover ≠ [] ↔ ∃ e, last t = Some e ∧ is_failed_dequeue e = true).
Proof.
  intros AsyncClient env self client queue fuel w.
  destruct (dispatch_run env self client queue fuel w)
    as (t & o & ph & Hrun & Hsteps & _ & Hph).
  destruct (steps_workers _ _ _ _ _ Hsteps Hph) as (leftover & Heq & Hlen & Hlast).
  exists t, o, leftover. split; [exact Hrun|]. by split.
Qed.

(** A worker left behind: the reservation succeeds and the dequeue is
    cancelled. *)
Example dispatch_cancelled_at_dequeue :
  let env :=
    mk_Env (fun _ _ _ => float_half) (fun _ => true) (fun _ => Ok tt)
      (fun _ => Ok (mk_Worker 4)) (fun _ => Raise CancelledError) in
  let run :=
    _dispatch env 3 (sample_controller (Ok None)) tt sample_queue world0 in
  fst run = Raise CancelledError ∧
  reserved_workers (history (snd run)) = [mk_Worker 4] ∧
  task_workers (history (snd run)) = [].
Proof. repeat split. Qed.

(** X14.  The loop does not stall while there is work and a free worker:
    when the queue always has an eligible request and [reserve] and
    [dequeue] always complete, each iteration polls once, reserves,
    dequeues and hands over, so that [n] iterations hand over [n] requests
    in [4 n] calls, without a sleep. *)
Theorem dispatch_progress :
  ∀ (AsyncClient : Type) (env : Env) (self : Controller AsyncClient)
    (client : AsyncClient) (queue : Queue),
    (∀ h, env_has_eligible env h = true) →
    (∀ h, ∃ worker, env_reserve env h = Ok worker) →
    (∀ h, ∃ p, env_dequeue env h = Ok p) →
    ∀ (fuel : nat) (w : World),
      ∃ t : list Event,
        _dispatch env fuel self client queue w = (Pending, extend w t) ∧
        length (handed_pairs t) = fuel ∧
        length t = (4 * fuel)%nat.
Proof.
  intros AsyncClient env self client queue Heligible Hreserve Hdequeue.
  induction fuel as [|fuel IH]; intros w.
  - exists []. by rewrite extend_nil.
  - cbn [_dispatch wait_eligible].
    rewrite !bind_run. unfold has_eligible_request. rewrite call_run, Heligible.
    cbn [negb]. unfold ret at 1.
    rewrite bind_run. unfold reserve. rewrite await_run, extend_extend.
    destruct (Hreserve (history (extend w [EvHasEligible queue true])))
      as [worker ->].
    rewrite bind_run. unfold dequeue. rewrite await_run, extend_extend.
    cbn [app].
    destruct (Hdequeue (history (extend w
      [EvHasEligible queue true; EvReserve (_worker_pool self) (Ok worker)])))
      as [[request attempt] ->].
    rewrite bind_run. unfold set_task. rewrite emit_run, extend_extend.
    cbn [app].
    destruct (IH (extend w
      [EvHasEligible queue true; EvReserve (_worker_pool self) (Ok worker);
       EvDequeue queue (Ok (request, attempt));
       EvSetTask worker (mk_Task queue (worker_id worker) request attempt)]))
      as (t & Hrun & Hhanded & Hlen).
    rewrite Hrun, extend_extend. eexists. split; [reflexivity|].
    unfold handed_pairs in *. cbn. rewrite Hhanded, Hlen. lia.
Qed.

Lemma dispatch_progress_witness :
  ∃ t : list Event,
    _dispatch sample_env 5 (sample_controller (Ok None)) tt sample_queue world0 =
      (Pending, extend world0 t) ∧
    length (handed_pairs t) = 5%nat.
Proof.
  destruct (dispatch_progress unit sample_env (sample_controller (Ok None)) tt
              sample_queue (fun _ => eq_refl)
              (fun _ => ex_intro _ (mk_Worker 4) eq_refl)
              (fun _ => ex_intro _ (sample_request, 2) eq_refl) 5 world0)
    as (t & Hrun & Hhanded & _).
  exists t. split; [exact Hrun | exact Hhanded].
Defined.

(** Polling a queue that never has an eligible request: polls and sleeps
    only, and no normal end. *)
Lemma wait_eligible_idle (env : Env) (queue : Queue) :
  (∀ h, env_has_eligible env h = false) →
  ∀ fuel w, ∃ (t : list Event) (o : Outcome unit),
    wait_eligible env fuel queue w = (o, extend w t) ∧
    o ≠ Ok tt ∧
    forallb is_poll_or_sleep t = true.
Proof.
  intros Hidle. induction fuel as [|fuel IH]; intros w.
  - exists [], Pending. by rewrite extend_nil.
  - cbn [wait_eligible]. rewrite bind_run. unfold has_eligible_request.
    rewrite call_run, Hidle. cbn [negb].
    rewrite bind_run. unfold asyncio_sleep. rewrite await_run, extend_extend.
    cbn [app].
    destruct (env_sleep env _) as [[]|e|].
    + destruct (IH (extend w [EvHasEligible queue false; EvSleep (1 # 10) (Ok tt)]))
        as (t & o & Hrun & Ho & Hall).
      rewrite Hrun, extend_extend. eexists _, o. split; [reflexivity|].
      split; [exact Ho|]. cbn. exact Hall.
    + eexists _, _. split; [reflexivity|]. by split.
    + eexists _, _. split; [reflexivity|]. by split.
Qed.

(** X15.  Idle periods do not tie up workers: while the queue has no
    eligible request, the dispatcher only polls and sleeps; it reserves no
    worker, dequeues nothing and hands over nothing, however long it runs. *)
Theorem dispatch_idle :
  ∀ (AsyncClient : Type) (env : Env) (self : Controller AsyncClient)
    (client : AsyncClient) (queue : Queue),
    (∀ h, env_has_eligible env h = false) →
    ∀ (fuel : nat) (w : World),
      ∃ (t : list Event) (o : Outcome unit),
        _dispatch env fuel self client queue w = (o, extend w t) ∧
        forallb is_poll_or_sleep t = true ∧
        reserved_workers t = [] ∧
        dequeued_pairs t = [] ∧
        handed_pairs t = [].
Proof.
  intros AsyncClient env self client queue Hidle fuel w.
  assert (Hnone : ∀ t, forallb is_poll_or_sleep t = true →
    reserved_workers t = [] ∧ dequeued_pairs t = [] ∧ handed_pairs t = []).
  { unfold reserved_workers, dequeued_pairs, handed_pairs.
    induction t as [|e t IH]; [done|]. cbn [forallb]. intros H.
    apply andb_prop in H as [He Ht]. destruct (IH Ht) as (H1 & H2 & H3).
    destruct e; try discriminate; cbn; by rewrite H1, H2, H3. }
  destruct fuel as [|fuel].
  - exists [], Pending. rewrite extend_nil. by repeat split.
  - cbn [_dispatch]. rewrite bind_run.
    destruct (wait_eligible_idle env queue Hidle (S fuel) w)
      as (t & o & Hrun & Ho & Hall).
    rewrite Hrun. exists t, o.
    split; [by destruct o as [[]|e|]|]. split; [exact Hall | by apply Hnone].
Qed.

Lemma dispatch_idle_witness :
  let env :=
    mk_Env (fun _ _ _ => float_half) (fun _ => false) (fun _ => Ok tt)
      (fun _ => Ok (mk_Worker 4)) (fun _ => Ok (sample_request, 2)) in
  ∃ (t : list Event) (o : Outcome unit),
    _dispatch env 3 (sample_controller (Ok None)) tt sample_queue world0 =
      (o, extend world0 t) ∧
    reserved_workers t = [].
Proof.
  intros env.
  destruct (dispatch_idle unit env (sample_controller (Ok None)) tt sample_queue
              (fun _ => eq_refl) 3 world0)
    as (t & o & Hrun & _ & Hreserved & _).
  exists t, o. split; [exact Hrun | exact Hreserved].
Defined.

(* ===================================================================== *)
(** ** The REST client *)
(* ===================================================================== *)

(** X17.  [BaseClient.send] returns a response only after the status check
    has passed it, and it is the response of the transport; every response
    that the transport returns is logged once, with its method, URL and
    status code, before the check and also when the check rejects it; when
    the transport raises, nothing is logged and the exception is the
    caller's. *)
Theorem send_logs_then_checks :
  ∀ (transport : list BaseClient.RestEvent → BaseClient.HttpRequest →
                 Outcome BaseClient.Response)
    (status_error : BaseClient.Response → option exn)
    (request : BaseClient.HttpRequest) (h : list BaseClient.RestEvent),
    let '(o, h') := BaseClient.send transport status_error request h in
    let is_log e :=
      match e with BaseClient.RestLogInfo _ _ _ => true | _ => false end in
    ∃ added : list BaseClient.RestEvent,
      h' = h ++ added ∧
      (∀ response, o = Ok response →
         transport h request = Ok response ∧ status_error response = None) ∧
      match transport h request with
      | Ok response =>
          List.filter is_log added =
            [BaseClient.RestLogInfo
               (BaseClient.http_method (BaseClient.response_request response))
               (BaseClient.http_url (BaseClient.response_request response))
               (BaseClient.status_code response)] ∧
          (∃ before, added =
             before ++ [BaseClient.RestRaiseForStatus response (status_error response)] ∧
             List.filter is_log before ≠ []) ∧
          o = match status_error response with
              | Some e => Raise e
              | None => Ok response
              end
      | Raise e => List.filter is_log added = [] ∧ o = Raise e
      | Pending => List.filter is_log added = [] ∧ o = Pending
      end.
Proof.
  intros transport status_error request h.
  unfold BaseClient.send, BaseClient.rbind, BaseClient.super_send,
    BaseClient.log_response, BaseClient.raise_for_status, BaseClient.rret.
  destruct (transport h request) as [response|e|] eqn:Htransport.
  - destruct (status_error response) as [e|] eqn:Hstatus.
    + eexists. rewrite <- !app_assoc. split; [reflexivity|].
      split; [discriminate|]. split; [reflexivity|].
      split; [|reflexivity].
      eexists [_; _]. split; [reflexivity | discriminate].
    + eexists. rewrite <- !app_assoc. split; [reflexivity|].
      split; [by intros ? [= <-]|]. split; [reflexivity|].
      split; [|reflexivity].
      eexists [_; _]. split; [reflexivity | discriminate].
  - eexists. split; [reflexivity|]. split; [discriminate | by split].
  - eexists. split; [reflexivity|]. split; [discriminate | by split].
Qed.
